(** * jsTrack auto-tracking: the tracking engine and its session controller

    A shallow embedding of [ts/opencv-tracking.ts] (the frame sampler, the
    template-match and optical-flow trackers, the [trackObject] dispatcher)
    and of the auto-track modal handlers that drive it.

    Conventions of the embedding.
    - A JavaScript number is an exact rational ([Q]) where the code computes
      with fractions (pixel centres, times, confidences) and an integer
      ([Z]) where the code only ever holds integers (results of
      [Math.round] and [parseInt], frame numbers, video dimensions).
      Rounding error of IEEE doubles and the value NaN are outside the model.
    - An async generator is the finite list of the items it yields, in
      order, together with the way it ends when it is resumed after the
      last of them (it returns or it throws, its [finally] block having
      run).  The consumer pulls the items one at a time from the front of
      that list.
    - What the browser and OpenCV.js decide (which event fires first, what a
      frame looks like, where the correlation peak is, when the user presses
      cancel) is read from an environment record [Env]. *)

From Stdlib Require Import ZArith QArith Qround Qabs Qminmax Lqa Lia List Sorted Ascii String Bool.
From stdpp Require Import gmap.
Import ListNotations.

Local Open Scope Z_scope.

(** ** JavaScript arithmetic used by the engine *)

(** [Math.round]: nearest integer, ties towards positive infinity. *)
Definition Math_round (q : Q) : Z := Qfloor (q + (1 # 2))%Q.

(** [clamp(value, min, max) = Math.max(min, Math.min(max, value))]; every
    call site passes integers. *)
Definition clamp (value min max : Z) : Z := Z.max min (Z.min max value).

(** ** Data model *)

Module ROI.
Record t := mk { x : Q; y : Q; width : Q; height : Q }.
End ROI.

Module Rect.
Record t := mk { x : Z; y : Z; width : Z; height : Z }.
End Rect.

(** A [cv.Mat] holding one channel: its header and its pixels. *)
Module Mat.
Record t := mk { rows : Z; cols : Z; at_ : Z -> Z -> Z }.

  (** [mat.roi(rect)]: the sub-matrix header over [rect]. *)
Definition roi (m : t) (r : Rect.t) : t :=
    {| rows := Rect.height r;
       cols := Rect.width r;
       at_ := fun i j => at_ m (Rect.y r + i) (Rect.x r + j) |}.
End Mat.

Module MinMaxLoc.
Record t := mk { maxVal : Q; maxLoc_x : Z; maxLoc_y : Z }.
End MinMaxLoc.

Module Video.
Record t := mk { currentTime : Q; videoWidth : Z; videoHeight : Z }.
End Video.

Inductive Algorithm := Template | OpticalFlow.

Module TrackingConfig.
Record t := mk {
    video : Video.t;
    roi : ROI.t;
    startFrame : Z;
    endFrame : Z;
    algorithm : Algorithm;
    searchMargin : Z
  }.
End TrackingConfig.

Module TrackingResult.
Record t := mk { frameNumber : Z; x : Q; y : Q; confidence : Q }.
End TrackingResult.

Module TrackingProgress.
Record t := mk { frame : Z; total : Z }.
End TrackingProgress.

Inductive Item :=
| Progress (p : TrackingProgress.t)
| Result (r : TrackingResult.t).

(** The errors the engine can raise: [new Error(`Seek timed out at
    time=${time}`)], [new Error('Failed to get 2d canvas context')], and
    the [BindingError] with which OpenCV.js answers [delete()] on a matrix
    that has been deleted already. *)
Inductive JsError :=
| SeekTimedOut (time : Q)
| NoCanvasContext
| MatAlreadyDeleted.

(** How a generator run ends. *)
Inductive Ending :=
| Returned
| Threw (e : JsError).

Definition Run : Type := list Item * Ending.

Definition yield (i : Item) (k : Run) : Run := (i :: fst k, snd k).

(** ** The frame sampler: [seekToFrame] *)

(** The state of one [seekToFrame] call: the video position, whether the
    ['seeked'] listener is attached, the delay of the armed timer (if any)
    and the state of the returned promise. *)
Inductive Promise :=
| Pending
| Resolved
| Rejected (e : JsError).

Module Seek.
Record t := mk {
    currentTime : Q;
    seekRequested : bool;
    listening : bool;
    timer : option Z;
    promise : Promise
  }.
End Seek.

(** The two things that can happen to a pending seek. *)
Inductive SeekEvent :=
| EvSeeked
| EvTimerFired.

(** The promise executor, run synchronously by [new Promise]. *)
Definition seek_start (currentTime time : Q) : Seek.t :=
  if Qlt_le_dec (Qabs (currentTime - time)) (1 # 1000) then
    {| Seek.currentTime := currentTime; Seek.seekRequested := false;
       Seek.listening := false; Seek.timer := None;
       Seek.promise := Resolved |}
  else
    {| Seek.currentTime := time; Seek.seekRequested := true;
       Seek.listening := true; Seek.timer := Some 5000;
       Seek.promise := Pending |}.

(** The callbacks [onSeeked] and the [setTimeout] body.  [time] is the
    target captured by the closures. *)
Definition seek_event (time : Q) (ev : SeekEvent) (s : Seek.t) : Seek.t :=
  match ev with
  | EvSeeked =>
      if Seek.listening s then
        {| Seek.currentTime := Seek.currentTime s;
           Seek.seekRequested := Seek.seekRequested s;
           Seek.listening := false; Seek.timer := None;
           Seek.promise := match Seek.promise s with
                           | Pending => Resolved
                           | p => p
                           end |}
      else s
  | EvTimerFired =>
      match Seek.timer s with
      | Some _ =>
          {| Seek.currentTime := Seek.currentTime s;
             Seek.seekRequested := Seek.seekRequested s;
             Seek.listening := false; Seek.timer := None;
             Seek.promise := match Seek.promise s with
                             | Pending => Rejected (SeekTimedOut time)
                             | p => p
                             end |}
      | None => s
      end
  end.

(** [await seekToFrame(video, time)], given the event the browser delivers
    first should a seek be started: the error thrown, or the new position
    of the video. *)
Definition seekToFrame (ev : SeekEvent) (currentTime time : Q) : JsError + Q :=
  let s := seek_start currentTime time in
  let s' := match Seek.promise s with
            | Pending => seek_event time ev s
            | _ => s
            end in
  match Seek.promise s' with
  | Rejected e => inl e
  | _ => inr (Seek.currentTime s')
  end.

(** ** The environment *)

Module Env.
Record t := mk {
    (** [timeline.getFrameStart] *)
    getFrameStart : Z -> Q;
    (** The user pressed cancel, and [c] is the first frame whose loop-top
        check of [signal.aborted] happens after the press. *)
    cancelAt : option Z;
    (** For the seek issued while processing a frame: which of the
        ['seeked'] event and the 5000 ms timer comes first. *)
    seekEv : Z -> SeekEvent;
    (** Whether [canvas.getContext('2d')] succeeds for that frame. *)
    context2d : Z -> bool;
    (** The grayscale matrix of the frame drawn from the video. *)
    frameGray : Z -> Mat.t;
    (** [cv.matchTemplate(image, templ, result, TM_CCOEFF_NORMED)] followed
        by [cv.minMaxLoc(result)]. *)
    matchTemplate : Mat.t -> Mat.t -> MinMaxLoc.t;
    (** [cv.calcOpticalFlowPyrLK] on one point: [status.data[0]] and
        [nextPts.data32F[0..1]]. *)
    calcOpticalFlowPyrLK : Mat.t -> Mat.t -> Q * Q -> Z * (Q * Q)
  }.
End Env.

(** [signal.aborted], read at the top of the iteration for [frameNum]. *)
Definition signal_aborted (env : Env.t) (frameNum : Z) : bool :=
  match Env.cancelAt env with
  | Some c => c <=? frameNum
  | None => false
  end.

(** [seekToFrame], [extractFrameImageData] and [imageDataToGray] for the
    frame [f]: the error thrown, or the gray matrix and the new position of
    the video. *)
Definition sampleFrame (env : Env.t) (f : Z) (currentTime : Q)
  : JsError + (Mat.t * Q) :=
  match seekToFrame (Env.seekEv env f) currentTime (Env.getFrameStart env f) with
  | inl e => inl e
  | inr t' =>
      if Env.context2d env f then inr (Env.frameGray env f, t')
      else inl NoCanvasContext
  end.

(** ** The trackers *)

Section Engine.

Variable env : Env.t.
Variable config : TrackingConfig.t.

Let video := TrackingConfig.video config.
Let roi := TrackingConfig.roi config.
Let startFrame := TrackingConfig.startFrame config.
Let endFrame := TrackingConfig.endFrame config.
Let searchMargin := TrackingConfig.searchMargin config.
Let videoWidth := Video.videoWidth video.
Let videoHeight := Video.videoHeight video.
Let totalFrames := endFrame - startFrame.

(** The number of iterations of [for (frameNum = startFrame + 1;
    frameNum <= endFrame; frameNum++)]. *)
Definition iterations : nat := Z.to_nat (endFrame - startFrame).

(** The ROI rectangle cropped out of the start frame (lines 107-115). *)
Definition roiRect : Rect.t :=
  let rx := clamp (Math_round (ROI.x roi)) 0 (videoWidth - 1) in
  let ry := clamp (Math_round (ROI.y roi)) 0 (videoHeight - 1) in
  let rw := clamp (Math_round (ROI.width roi)) 1 videoWidth in
  let rh := clamp (Math_round (ROI.height roi)) 1 videoHeight in
  {| Rect.x := rx; Rect.y := ry;
     Rect.width := Z.min rw (videoWidth - rx);
     Rect.height := Z.min rh (videoHeight - ry) |}.

(** The search window of one iteration (lines 143-150). *)
Definition searchRect (templateW templateH : Z) (matchCenterX matchCenterY : Q)
  : Rect.t :=
  let searchX :=
    clamp (Math_round (matchCenterX - inject_Z templateW / 2
                       - inject_Z searchMargin)%Q) 0 (videoWidth - 1) in
  let searchY :=
    clamp (Math_round (matchCenterY - inject_Z templateH / 2
                       - inject_Z searchMargin)%Q) 0 (videoHeight - 1) in
  let searchW := Math_round (inject_Z templateW + 2 * inject_Z searchMargin)%Q in
  let searchH := Math_round (inject_Z templateH + 2 * inject_Z searchMargin)%Q in
  {| Rect.x := searchX; Rect.y := searchY;
     Rect.width := Z.min searchW (videoWidth - searchX);
     Rect.height := Z.min searchH (videoHeight - searchY) |}.

(** The body of the template-match loop, [n] iterations from [frameNum] on. *)
Fixpoint templateMatch_loop (template : Mat.t) (n : nat) (frameNum : Z)
  (currentTime matchCenterX matchCenterY : Q) : Run :=
  match n with
  | O => ([], Returned)
  | S n' =>
      if signal_aborted env frameNum then ([], Returned)
      else
        yield (Progress {| TrackingProgress.frame := frameNum - startFrame;
                           TrackingProgress.total := totalFrames |})
          match sampleFrame env frameNum currentTime with
          | inl e => ([], Threw e)
          | inr (frameGray, currentTime') =>
              let templateW := Mat.cols template in
              let templateH := Mat.rows template in
              let sr := searchRect templateW templateH matchCenterX matchCenterY in
              if (Rect.width sr <? templateW) || (Rect.height sr <? templateH)
              then
                yield (Result {| TrackingResult.frameNumber := frameNum;
                                 TrackingResult.x := matchCenterX;
                                 TrackingResult.y := matchCenterY;
                                 TrackingResult.confidence := 0 |})
                  ([], Returned)
              else
                let searchRegion := Mat.roi frameGray sr in
                let minMax := Env.matchTemplate env searchRegion template in
                let matchX := Rect.x sr + MinMaxLoc.maxLoc_x minMax in
                let matchY := Rect.y sr + MinMaxLoc.maxLoc_y minMax in
                let matchCenterX' := (inject_Z matchX + inject_Z templateW / 2)%Q in
                let matchCenterY' := (inject_Z matchY + inject_Z templateH / 2)%Q in
                yield (Result {| TrackingResult.frameNumber := frameNum;
                                 TrackingResult.x := matchCenterX';
                                 TrackingResult.y := matchCenterY';
                                 TrackingResult.confidence :=
                                   MinMaxLoc.maxVal minMax |})
                  (templateMatch_loop template n' (frameNum + 1)
                     currentTime' matchCenterX' matchCenterY')
          end
  end.

Definition templateMatchTrack : Run :=
  match sampleFrame env startFrame (Video.currentTime video) with
  | inl e => ([], Threw e)
  | inr (startGray, currentTime') =>
      let template := Mat.roi startGray roiRect in
      let matchCenterX :=
        (inject_Z (Rect.x roiRect) + inject_Z (Rect.width roiRect) / 2)%Q in
      let matchCenterY :=
        (inject_Z (Rect.y roiRect) + inject_Z (Rect.height roiRect) / 2)%Q in
      templateMatch_loop template iterations (startFrame + 1)
        currentTime' matchCenterX matchCenterY
  end.

(** The [finally] block of [opticalFlowTrack] (lines 285-288),
    [prevGray.delete(); prevPts.delete()], entered when the [try] block
    completes with [completion].  [deleted] tells whether the matrices
    these two variables hold have been deleted before: a second [delete()]
    throws, and that error replaces the completion of the [try] block. *)
Definition opticalFlow_finally (deleted : bool) (completion : Ending) : Ending :=
  if deleted then Threw MatAlreadyDeleted else completion.

(** The body of the optical-flow loop.  Every iteration deletes the
    previous frame and point (lines 255-256); the tracked branch then
    stores the current ones in [prevGray] and [prevPts], the lost branch
    leaves the two variables on the deleted matrices and returns, which
    runs the [finally] block on them. *)
Fixpoint opticalFlow_loop (n : nat) (frameNum : Z) (currentTime : Q)
  (prevGray : Mat.t) (prevPts : Q * Q) : Run :=
  match n with
  | O => ([], opticalFlow_finally false Returned)
  | S n' =>
      if signal_aborted env frameNum then ([], opticalFlow_finally false Returned)
      else
        yield (Progress {| TrackingProgress.frame := frameNum - startFrame;
                           TrackingProgress.total := totalFrames |})
          match sampleFrame env frameNum currentTime with
          | inl e => ([], opticalFlow_finally false (Threw e))
          | inr (currGray, currentTime') =>
              let '(status, nextPts) :=
                Env.calcOpticalFlowPyrLK env prevGray currGray prevPts in
              let tracked := status =? 1 in
              let newX := fst nextPts in
              let newY := snd nextPts in
              if tracked then
                yield (Result {| TrackingResult.frameNumber := frameNum;
                                 TrackingResult.x := newX;
                                 TrackingResult.y := newY;
                                 TrackingResult.confidence := 1 |})
                  (opticalFlow_loop n' (frameNum + 1) currentTime'
                     currGray nextPts)
              else
                yield (Result {| TrackingResult.frameNumber := frameNum;
                                 TrackingResult.x := newX;
                                 TrackingResult.y := newY;
                                 TrackingResult.confidence := 0 |})
                  ([], opticalFlow_finally true Returned)
          end
  end.

Definition opticalFlowTrack : Run :=
  match sampleFrame env startFrame (Video.currentTime video) with
  | inl e => ([], Threw e)
  | inr (prevGray, currentTime') =>
      let pointX := (ROI.x roi + ROI.width roi / 2)%Q in
      let pointY := (ROI.y roi + ROI.height roi / 2)%Q in
      opticalFlow_loop iterations (startFrame + 1) currentTime'
        prevGray (pointX, pointY)
  end.

(** The dispatcher. *)
Definition trackObject : Run :=
  match TrackingConfig.algorithm config with
  | OpticalFlow => opticalFlowTrack
  | Template => templateMatchTrack
  end.

End Engine.

(** ** Reading a run *)

Definition results (items : list Item) : list TrackingResult.t :=
  omap (fun i => match i with Result r => Some r | Progress _ => None end) items.

Definition progresses (items : list Item) : list TrackingProgress.t :=
  omap (fun i => match i with Progress p => Some p | Result _ => None end) items.

Definition result_frames (items : list Item) : list Z :=
  map TrackingResult.frameNumber (results items).

Definition progress_frames (items : list Item) : list Z :=
  map TrackingProgress.frame (progresses items).

(** The number an item carries in its frame field. *)
Definition carried_frame (i : Item) : Z :=
  match i with
  | Progress p => TrackingProgress.frame p
  | Result r => TrackingResult.frameNumber r
  end.

(** ** The point, track and timeline model *)

Module Frame.
Record t := mk { number : Z }.
End Frame.

Module Point.
Record t := mk { id : nat; frame : Frame.t; x : Q; y : Q }.
End Point.

(** A row of the data table, and the payload of [point.export()]. *)
Module Row.
Record t := mk { t_ : Q; x : Q; y : Q }.
End Row.

Module Track.
Record t := mk {
  points : gmap Z Point.t;
  table : list Row.t
}.
End Track.

(** [framePoints] holds the [points] array of each frame object, under the
    frame's number. *)
Module Timeline.
Record t := mk {
  frames : gmap Z Frame.t;
  frameCount : Z;
  currentFrame : Z;
  activeFrames : list Frame.t;
  framePoints : gmap Z (list Point.t)
}.
End Timeline.

(** The [{undo, redo}] pair registered by the commit phase: both closures
    capture [addedPoints] and nothing else. *)
Inductive Action :=
| CompoundAction (addedPoints : list Point.t).

(** ** The user interface the handlers touch *)

Inductive Message :=
| MsgAlgorithm
| MsgValidNumbers
| MsgEndGreater
| MsgFrameRange (frameCount : Z)
| MsgOverwrite (existingCount : nat)
| MsgTrackingFailed (e : JsError)
| MsgSuccess (n : nat)
| MsgCancelled (n : nat).

Inductive TextLine :=
| LineTracking (frame total : Z)
| LinePercent (percent : Z)
| LineLost (frameNumber percent : Z)
| LinePointsAdded (first last : Z).

Inductive SubmitLabel := LabelTrack | LabelTracking.

Module Ui.
Record t := mk {
  modalVisible : bool;
  modalText : list TextLine;
  submitDisabled : bool;
  submitLabel : SubmitLabel;
  roiShape : bool;
  detachedVideos : nat;
  alerts : list Message
}.
End Ui.

(** Everything the submit handler reads or writes.  [hasTrack] says whether
    [master.track] is set; the model has one track object. *)
Module World.
Record t := mk {
  hasTrack : bool;
  track : Track.t;
  timeline : Timeline.t;
  history : list Action;
  allocated : nat;
  currentROI : option ROI.t;
  ui : Ui.t
}.
End World.

Module ModalExportData.
Record t := mk {
  algorithm : string;
  startFrame : string;
  endFrame : string;
  searchMargin : string
}.
End ModalExportData.

(** What the browser and the user decide during one submit. *)
Module SessionEnv.
Record t := mk {
  engine : Env.t;
  (** the answer to the overwrite [confirmModal] *)
  confirmOverwrite : bool;
  (** ['loadeddata'] arrives for the detached video (otherwise ['error'] or
      the 10 s timer) *)
  videoLoads : bool;
  videoWidth : Z;
  videoHeight : Z;
  (** [point.export()]: the row data, or nothing *)
  pointExport : Point.t -> option Row.t
}.
End SessionEnv.

(** ** [parseInt(s, 10)] on ASCII input *)

Definition isWhiteSpace (c : ascii) : bool :=
  let n := nat_of_ascii c in
  ((9 <=? n)%nat && (n <=? 13)%nat) || (n =? 32)%nat.

Definition digitValue (c : ascii) : option Z :=
  let n := nat_of_ascii c in
  if ((48 <=? n)%nat && (n <=? 57)%nat) then Some (Z.of_nat n - 48) else None.

Fixpoint skipWhiteSpace (s : string) : string :=
  match s with
  | String c rest => if isWhiteSpace c then skipWhiteSpace rest else s
  | EmptyString => s
  end.

(** The value of the longest prefix of digits, given the value [acc] of the
    digits already read. *)
Fixpoint parseDigits (s : string) (acc : Z) : Z :=
  match s with
  | String c rest =>
      match digitValue c with
      | Some d => parseDigits rest (10 * acc + d)
      | None => acc
      end
  | EmptyString => acc
  end.

Definition startsWithDigit (s : string) : bool :=
  match s with
  | String c _ => match digitValue c with Some _ => true | None => false end
  | EmptyString => false
  end.

(** [None] stands for NaN. *)
Definition parseInt (s : string) : option Z :=
  let s1 := skipWhiteSpace s in
  let '(sign, s2) :=
    match s1 with
    | String "-"%char rest => (-1, rest)
    | String "+"%char rest => (1, rest)
    | _ => (1, s1)
    end in
  if startsWithDigit s2 then Some (sign * parseDigits s2 0) else None.

(** ** Validation of the submitted fields (lines 584-601) *)

Inductive Validation :=
| Reject (m : Message)
| Accept (startFrame endFrame searchMargin : Z).

Definition validate (data : ModalExportData.t) (frameCount : Z) : Validation :=
  match parseInt (ModalExportData.startFrame data),
        parseInt (ModalExportData.endFrame data),
        parseInt (ModalExportData.searchMargin data) with
  | Some startFrame, Some endFrame, Some searchMargin =>
      if startFrame >=? endFrame then Reject MsgEndGreater
      else if (startFrame <? 0) || (endFrame >? frameCount)
           then Reject (MsgFrameRange frameCount)
           else Accept startFrame endFrame searchMargin
  | _, _, _ => Reject MsgValidNumbers
  end.

Definition parseAlgorithm (s : string) : option Algorithm :=
  if String.eqb s "template"%string then Some Template
  else if String.eqb s "optical-flow"%string then Some OpticalFlow
  else None.

(** ** Removing and restoring a point *)

Definition pushFramePoint (k : Z) (p : Point.t) (fp : gmap Z (list Point.t))
  : gmap Z (list Point.t) :=
  <[k := default [] (fp !! k) ++ [p]]> fp.

Definition dropFramePoint (k : Z) (p : Point.t) (fp : gmap Z (list Point.t))
  : gmap Z (list Point.t) :=
  alter (List.filter (fun q => negb (Point.id q =? Point.id p)%nat)) k fp.

Definition setFramePoints (fp : gmap Z (list Point.t)) (tl : Timeline.t)
  : Timeline.t :=
  {| Timeline.frames := Timeline.frames tl;
     Timeline.frameCount := Timeline.frameCount tl;
     Timeline.currentFrame := Timeline.currentFrame tl;
     Timeline.activeFrames := Timeline.activeFrames tl;
     Timeline.framePoints := fp |}.

(** Modelled from the spec: [Point.remove] lives in [ts/classes/point.ts],
    which is not among the sources.  The spec gives [track.points] as a
    mapping from frame number to Point, unique per frame, and has
    [point.remove()] take the point out of it; the point also leaves its
    frame's point list. *)
Definition Point_remove (p : Point.t) (tt : Track.t * Timeline.t)
  : Track.t * Timeline.t :=
  let k := Frame.number (Point.frame p) in
  ({| Track.points := delete k (Track.points (fst tt));
      Track.table := Track.table (fst tt) |},
   setFramePoints (dropFramePoint k p (Timeline.framePoints (snd tt))) (snd tt)).

(** Modelled from the spec: [Point.unRemove], from the same absent file,
    puts the point back under its frame number and into its frame's list. *)
Definition Point_unRemove (p : Point.t) (tt : Track.t * Timeline.t)
  : Track.t * Timeline.t :=
  let k := Frame.number (Point.frame p) in
  ({| Track.points := <[k := p]> (Track.points (fst tt));
      Track.table := Track.table (fst tt) |},
   setFramePoints (pushFramePoint k p (Timeline.framePoints (snd tt))) (snd tt)).

(** ** The consumption loop (lines 684-704) *)

Module Consumed.
Record t := mk {
  results : list TrackingResult.t;
  text : list TextLine;
  broke : bool
}.
End Consumed.

Definition confidenceThreshold : Q := 1 # 2.

Fixpoint consume (startFrame : Z) (items : list Item)
  (results : list TrackingResult.t) (text : list TextLine) : Consumed.t :=
  match items with
  | [] => {| Consumed.results := results; Consumed.text := text;
             Consumed.broke := false |}
  | Progress item :: rest =>
      consume startFrame rest results
        [LineTracking (TrackingProgress.frame item) (TrackingProgress.total item);
         LinePercent (Math_round
           (inject_Z (TrackingProgress.frame item)
            / inject_Z (TrackingProgress.total item) * 100)%Q)]
  | Result item :: rest =>
      if Qlt_le_dec (TrackingResult.confidence item) confidenceThreshold then
        {| Consumed.results := results;
           Consumed.text :=
             [LineLost (TrackingResult.frameNumber item)
                (Math_round (TrackingResult.confidence item * 100)%Q);
              LinePointsAdded (startFrame + 1)
                (TrackingResult.frameNumber item - 1)];
           Consumed.broke := true |}
      else consume startFrame rest (results ++ [item]) text
  end.

(** ** The commit phase (lines 718-743) *)

Module Commit.
Record t := mk {
  track : Track.t;
  timeline : Timeline.t;
  allocated : nat;
  addedPoints : list Point.t
}.
End Commit.

(** One iteration of [for (const result of results)]. *)
Definition commit_result (pointExport : Point.t -> option Row.t)
  (st : Commit.t) (result : TrackingResult.t) : Commit.t :=
  match Timeline.frames (Commit.timeline st) !! TrackingResult.frameNumber result with
  | None => st
  | Some frame =>
      let k := Frame.number frame in
      let '(track1, timeline1) :=
        match Track.points (Commit.track st) !! k with
        | Some existing =>
            Point_remove existing (Commit.track st, Commit.timeline st)
        | None => (Commit.track st, Commit.timeline st)
        end in
      let point :=
        {| Point.id := Commit.allocated st; Point.frame := frame;
           Point.x := TrackingResult.x result;
           Point.y := TrackingResult.y result |} in
      {| Commit.track :=
           {| Track.points := <[k := point]> (Track.points track1);
              Track.table :=
                match pointExport point with
                | Some pointData => Track.table track1 ++ [pointData]
                | None => Track.table track1
                end |};
         Commit.timeline :=
           {| Timeline.frames := Timeline.frames timeline1;
              Timeline.frameCount := Timeline.frameCount timeline1;
              Timeline.currentFrame := Timeline.currentFrame timeline1;
              Timeline.activeFrames := Timeline.activeFrames timeline1 ++ [frame];
              Timeline.framePoints :=
                pushFramePoint k point (Timeline.framePoints timeline1) |};
         Commit.allocated := S (Commit.allocated st);
         Commit.addedPoints := Commit.addedPoints st ++ [point] |}
  end.

Definition commit_results (pointExport : Point.t -> option Row.t)
  (track : Track.t) (timeline : Timeline.t) (allocated : nat)
  (results : list TrackingResult.t) : Commit.t :=
  fold_left (commit_result pointExport) results
    {| Commit.track := track; Commit.timeline := timeline;
       Commit.allocated := allocated; Commit.addedPoints := [] |}.

(** ** The compound action's closures (lines 746-759) *)

Definition undo (a : Action) (tt : Track.t * Timeline.t) : Track.t * Timeline.t :=
  match a with
  | CompoundAction addedPoints =>
      fold_left (fun tt point => Point_remove point tt) addedPoints tt
  end.

Definition redo (a : Action) (tt : Track.t * Timeline.t) : Track.t * Timeline.t :=
  match a with
  | CompoundAction addedPoints =>
      fold_left (fun tt point => Point_unRemove point tt) addedPoints tt
  end.

(** ** The submit handler (lines 575-792) *)

Definition setUi (u : Ui.t) (w : World.t) : World.t :=
  {| World.hasTrack := World.hasTrack w; World.track := World.track w;
     World.timeline := World.timeline w; World.history := World.history w;
     World.allocated := World.allocated w;
     World.currentROI := World.currentROI w; World.ui := u |}.

(** [alertModal] and [confirmModal]: the dialog is recorded in [alerts]. *)
Definition alertModal (m : Message) (w : World.t) : World.t :=
  let u := World.ui w in
  setUi {| Ui.modalVisible := Ui.modalVisible u; Ui.modalText := Ui.modalText u;
           Ui.submitDisabled := Ui.submitDisabled u;
           Ui.submitLabel := Ui.submitLabel u; Ui.roiShape := Ui.roiShape u;
           Ui.detachedVideos := Ui.detachedVideos u;
           Ui.alerts := Ui.alerts u ++ [m] |} w.

(** [document.createElement('video')] with [src] set, and its teardown
    [trackingVideo.src = ''; trackingVideo.remove()]. *)
Definition setDetachedVideos (n : nat) (w : World.t) : World.t :=
  let u := World.ui w in
  setUi {| Ui.modalVisible := Ui.modalVisible u; Ui.modalText := Ui.modalText u;
           Ui.submitDisabled := Ui.submitDisabled u;
           Ui.submitLabel := Ui.submitLabel u; Ui.roiShape := Ui.roiShape u;
           Ui.detachedVideos := n; Ui.alerts := Ui.alerts u |} w.

Definition setSubmitButton (disabled : bool) (label : SubmitLabel) (w : World.t)
  : World.t :=
  let u := World.ui w in
  setUi {| Ui.modalVisible := Ui.modalVisible u; Ui.modalText := Ui.modalText u;
           Ui.submitDisabled := disabled; Ui.submitLabel := label;
           Ui.roiShape := Ui.roiShape u;
           Ui.detachedVideos := Ui.detachedVideos u;
           Ui.alerts := Ui.alerts u |} w.

(** [autoTrackModal.setText] *)
Definition setText (lines : list TextLine) (w : World.t) : World.t :=
  let u := World.ui w in
  setUi {| Ui.modalVisible := Ui.modalVisible u; Ui.modalText := lines;
           Ui.submitDisabled := Ui.submitDisabled u;
           Ui.submitLabel := Ui.submitLabel u; Ui.roiShape := Ui.roiShape u;
           Ui.detachedVideos := Ui.detachedVideos u;
           Ui.alerts := Ui.alerts u |} w.

(** [autoTrackModal.hide().clear()] *)
Definition hideModal (w : World.t) : World.t :=
  let u := World.ui w in
  setUi {| Ui.modalVisible := false; Ui.modalText := Ui.modalText u;
           Ui.submitDisabled := Ui.submitDisabled u;
           Ui.submitLabel := Ui.submitLabel u; Ui.roiShape := Ui.roiShape u;
           Ui.detachedVideos := Ui.detachedVideos u;
           Ui.alerts := Ui.alerts u |} w.

(** [cleanupROISelection] (lines 528-537) *)
Definition cleanupROISelection (w : World.t) : World.t :=
  let u := World.ui w in
  {| World.hasTrack := World.hasTrack w; World.track := World.track w;
     World.timeline := World.timeline w; World.history := World.history w;
     World.allocated := World.allocated w;
     World.currentROI := None;
     World.ui :=
       {| Ui.modalVisible := Ui.modalVisible u; Ui.modalText := Ui.modalText u;
          Ui.submitDisabled := Ui.submitDisabled u;
          Ui.submitLabel := Ui.submitLabel u; Ui.roiShape := false;
          Ui.detachedVideos := Ui.detachedVideos u;
          Ui.alerts := Ui.alerts u |} |}.

(** Modelled from the spec: [timeline.seek] is a method of the absent
    [Timeline] class; the spec has the session restore the original
    playhead position with it. *)
Definition Timeline_seek (frame : Z) (w : World.t) : World.t :=
  let tl := World.timeline w in
  {| World.hasTrack := World.hasTrack w; World.track := World.track w;
     World.timeline :=
       {| Timeline.frames := Timeline.frames tl;
          Timeline.frameCount := Timeline.frameCount tl;
          Timeline.currentFrame := frame;
          Timeline.activeFrames := Timeline.activeFrames tl;
          Timeline.framePoints := Timeline.framePoints tl |};
     World.history := World.history w;
     World.allocated := World.allocated w;
     World.currentROI := World.currentROI w; World.ui := World.ui w |}.

(** Lines 605-609: the points already present in the frame range. *)
Definition countExisting (points : gmap Z Point.t) (startFrame endFrame : Z)
  : nat :=
  length (List.filter (fun f => bool_decide (is_Some (points !! f)))
            (seqZ (startFrame + 1) (endFrame - startFrame))).

(** Lines 717-764: the batch commit and its single [master.change].
    Modelled from the spec: [master.change] belongs to the absent [Project]
    class; the undo system accepts the [{undo, redo}] pair, recorded here at
    the head of [history]. *)
Definition commitPhase (senv : SessionEnv.t) (results : list TrackingResult.t)
  (w : World.t) : World.t :=
  match results with
  | [] => w
  | _ :: _ =>
      let c := commit_results (SessionEnv.pointExport senv) (World.track w)
                 (World.timeline w) (World.allocated w) results in
      {| World.hasTrack := World.hasTrack w;
         World.track := Commit.track c;
         World.timeline := Commit.timeline c;
         World.history := CompoundAction (Commit.addedPoints c) :: World.history w;
         World.allocated := Commit.allocated c;
         World.currentROI := World.currentROI w; World.ui := World.ui w |}
  end.

(** Lines 766-781: what runs after the commit phase whatever happened. *)
Definition sessionCleanup (originalFrame : Z) (w : World.t) : World.t :=
  let w := Timeline_seek originalFrame w in
  let w := setDetachedVideos (pred (Ui.detachedVideos (World.ui w))) w in
  let w := setSubmitButton false LabelTrack w in
  let w := setText [] w in
  let w := hideModal w in
  cleanupROISelection w.

(** The [aborted] flag of the handler at the end of the run. *)
Definition cancelPressed (senv : SessionEnv.t) : bool :=
  match Env.cancelAt (SessionEnv.engine senv) with
  | Some _ => true
  | None => false
  end.

Inductive Outcome :=
| Ignored
| Invalid
| Declined
| LoadFailed
| Completed.

(** Lines 649-657: the configuration handed to [trackObject]; the detached
    video starts at position 0. *)
Definition sessionConfig (senv : SessionEnv.t) (algorithm : Algorithm)
  (currentROI : ROI.t) (startFrame endFrame searchMargin : Z)
  : TrackingConfig.t :=
  {| TrackingConfig.video :=
       {| Video.currentTime := 0;
          Video.videoWidth := SessionEnv.videoWidth senv;
          Video.videoHeight := SessionEnv.videoHeight senv |};
     TrackingConfig.roi := currentROI;
     TrackingConfig.startFrame := startFrame;
     TrackingConfig.endFrame := endFrame;
     TrackingConfig.algorithm := algorithm;
     TrackingConfig.searchMargin := searchMargin |}.

(** What the stream still holds when the loop leaves it with [break]:
    the items after the first result below the threshold.  [None] when the
    loop pulls the stream to its end. *)
Fixpoint unconsumed (items : list Item) : option (list Item) :=
  match items with
  | [] => None
  | Progress _ :: rest => unconsumed rest
  | Result item :: rest =>
      if Qlt_le_dec (TrackingResult.confidence item) confidenceThreshold
      then Some rest
      else unconsumed rest
  end.

(** The error the [for await] statement of lines 685-704 throws into the
    [catch] of line 705, if any.  A stream pulled to its end throws what
    the generator threw.  A [break] closes the generator where it is
    suspended ([return()], delegated by [yield*]), which runs its [finally]
    block.  Both trackers leave [break]-able yields in two ways only: a
    result followed by more frames, where the matrices the [finally] block
    deletes are live and closing succeeds; and a last result, after which
    nothing but the [finally] block remains, so that closing ends as
    resuming would. *)
Definition streamError (run : Run) : option JsError :=
  match unconsumed (fst run), snd run with
  | None, Threw err => Some err
  | Some [], Threw err => Some err
  | _, _ => None
  end.

(** Lines 684-704 on the stream of [trackObject(config, signal)]. *)
Definition consumeRun (senv : SessionEnv.t) (config : TrackingConfig.t)
  (text : list TextLine) : Consumed.t :=
  consume (TrackingConfig.startFrame config)
    (fst (trackObject (SessionEnv.engine senv) config)) [] text.

(** Lines 618-791, entered once validation and the overwrite question are
    behind.  The submit and cancel buttons are taken to exist. *)
Definition runSession (senv : SessionEnv.t) (algorithm : Algorithm)
  (currentROI : ROI.t) (startFrame endFrame searchMargin : Z) (w : World.t)
  : World.t * Outcome :=
  let originalFrame := Timeline.currentFrame (World.timeline w) in
  let w := setDetachedVideos (S (Ui.detachedVideos (World.ui w))) w in
  if negb (SessionEnv.videoLoads senv) then (w, LoadFailed)
  else
    let config :=
      sessionConfig senv algorithm currentROI startFrame endFrame searchMargin in
    let w := setSubmitButton true LabelTracking w in
    let aborted := cancelPressed senv in
    let run := trackObject (SessionEnv.engine senv) config in
    let c := consumeRun senv config (Ui.modalText (World.ui w)) in
    let w := setText (Consumed.text c) w in
    let w :=
      match streamError run with
      | Some err => if aborted then w else alertModal (MsgTrackingFailed err) w
      | None => w
      end in
    let results := Consumed.results c in
    let w := commitPhase senv results w in
    let w := sessionCleanup originalFrame w in
    let w :=
      if (0 <? length results)%nat && negb aborted
      then alertModal (MsgSuccess (length results)) w
      else if aborted then alertModal (MsgCancelled (length results)) w
           else w in
    (w, Completed).

Definition submit (senv : SessionEnv.t) (data : option ModalExportData.t)
  (w : World.t) : World.t * Outcome :=
  match data, World.currentROI w, World.hasTrack w with
  | Some data, Some currentROI, true =>
      match parseAlgorithm (ModalExportData.algorithm data) with
      | None => (alertModal MsgAlgorithm w, Invalid)
      | Some algorithm =>
          match validate data (Timeline.frameCount (World.timeline w)) with
          | Reject m => (alertModal m w, Invalid)
          | Accept startFrame endFrame searchMargin =>
              let existingCount :=
                countExisting (Track.points (World.track w)) startFrame endFrame in
              if (0 <? existingCount)%nat then
                let w := alertModal (MsgOverwrite existingCount) w in
                if SessionEnv.confirmOverwrite senv
                then runSession senv algorithm currentROI startFrame endFrame
                       searchMargin w
                else (w, Declined)
              else runSession senv algorithm currentROI startFrame endFrame
                     searchMargin w
          end
      end
  | _, _, _ => (w, Ignored)
  end.

(** ** Test fixtures *)

Module Fixture.

Definition blank : Mat.t := {| Mat.rows := 480; Mat.cols := 640; Mat.at_ := fun _ _ => 0 |}.

(** An OpenCV double that reports the peak in the last column of the result
    matrix with score 9/10, and a flow that always finds the point. *)
Definition env : Env.t :=
  {| Env.getFrameStart := fun f => (inject_Z f / 30)%Q;
     Env.cancelAt := None;
     Env.seekEv := fun _ => EvSeeked;
     Env.context2d := fun _ => true;
     Env.frameGray := fun _ => blank;
     Env.matchTemplate := fun image templ =>
       {| MinMaxLoc.maxVal := 9 # 10;
          MinMaxLoc.maxLoc_x := Mat.cols image - Mat.cols templ;
          MinMaxLoc.maxLoc_y := 0 |};
     Env.calcOpticalFlowPyrLK := fun _ _ p => (1, p) |}.

Definition video : Video.t :=
  {| Video.currentTime := 0; Video.videoWidth := 640; Video.videoHeight := 480 |}.

Definition roi : ROI.t :=
  {| ROI.x := 100; ROI.y := 50; ROI.width := 40; ROI.height := 40 |}.

Definition config (alg : Algorithm) (margin : Z) : TrackingConfig.t :=
  {| TrackingConfig.video := video; TrackingConfig.roi := roi;
     TrackingConfig.startFrame := 10; TrackingConfig.endFrame := 15;
     TrackingConfig.algorithm := alg; TrackingConfig.searchMargin := margin |}.

(** A timeline with frames 0..20, a track holding one hand-placed point at
    frame 11, and the modal open on a selected ROI. *)
Definition timeline : Timeline.t :=
  {| Timeline.frames :=
       list_to_map (map (fun i => (i, {| Frame.number := i |})) (seqZ 0 21));
     Timeline.frameCount := 20;
     Timeline.currentFrame := 10;
     Timeline.activeFrames := [];
     Timeline.framePoints := ∅ |}.

Definition oldPoint : Point.t :=
  {| Point.id := 0; Point.frame := {| Frame.number := 11 |};
     Point.x := 5; Point.y := 6 |}.

Definition ui : Ui.t :=
  {| Ui.modalVisible := true; Ui.modalText := [];
     Ui.submitDisabled := false; Ui.submitLabel := LabelTrack;
     Ui.roiShape := true; Ui.detachedVideos := 0; Ui.alerts := [] |}.

Definition world (points : gmap Z Point.t) : World.t :=
  {| World.hasTrack := true;
     World.track := {| Track.points := points; Track.table := [] |};
     World.timeline := timeline;
     World.history := [];
     World.allocated := 1;
     World.currentROI := Some roi;
     World.ui := ui |}.

Definition senv (e : Env.t) : SessionEnv.t :=
  {| SessionEnv.engine := e;
     SessionEnv.confirmOverwrite := true;
     SessionEnv.videoLoads := true;
     SessionEnv.videoWidth := 640;
     SessionEnv.videoHeight := 480;
     SessionEnv.pointExport := fun p =>
       Some {| Row.t_ := (inject_Z (Frame.number (Point.frame p)) / 30)%Q;
               Row.x := Point.x p; Row.y := Point.y p |} |}.

Definition data (alg startFrame endFrame searchMargin : string)
  : ModalExportData.t :=
  {| ModalExportData.algorithm := alg;
     ModalExportData.startFrame := startFrame;
     ModalExportData.endFrame := endFrame;
     ModalExportData.searchMargin := searchMargin |}.

(** The same double with the cancel button pressed just before the
    loop-top check of frame [c]. *)
Definition cancelledAt (c : Z) : Env.t :=
  {| Env.getFrameStart := Env.getFrameStart env;
     Env.cancelAt := Some c;
     Env.seekEv := Env.seekEv env;
     Env.context2d := Env.context2d env;
     Env.frameGray := Env.frameGray env;
     Env.matchTemplate := Env.matchTemplate env;
     Env.calcOpticalFlowPyrLK := Env.calcOpticalFlowPyrLK env |}.

(** A video whose frame [f] is filled with the value [f], and a flow that
    loses the point once the current frame is [f] or later: the tracked
    patch leaves the picture at frame [f]. *)
Definition exitsAt (f : Z) : Env.t :=
  {| Env.getFrameStart := Env.getFrameStart env;
     Env.cancelAt := None;
     Env.seekEv := Env.seekEv env;
     Env.context2d := Env.context2d env;
     Env.frameGray := fun g =>
       {| Mat.rows := 480; Mat.cols := 640; Mat.at_ := fun _ _ => g |};
     Env.matchTemplate := Env.matchTemplate env;
     Env.calcOpticalFlowPyrLK := fun _ currGray p =>
       (if Mat.at_ currGray 0 0 <? f then 1 else 0, p) |}.


(** A user who answers no to the overwrite question, and a detached video
    that never loads. *)
Definition decliningUser : SessionEnv.t :=
  {| SessionEnv.engine := env;
     SessionEnv.confirmOverwrite := false;
     SessionEnv.videoLoads := true;
     SessionEnv.videoWidth := 640;
     SessionEnv.videoHeight := 480;
     SessionEnv.pointExport := SessionEnv.pointExport (senv env) |}.

Definition brokenVideo : SessionEnv.t :=
  {| SessionEnv.engine := env;
     SessionEnv.confirmOverwrite := true;
     SessionEnv.videoLoads := false;
     SessionEnv.videoWidth := 0;
     SessionEnv.videoHeight := 0;
     SessionEnv.pointExport := SessionEnv.pointExport (senv env) |}.

(** A timeline without frame objects. *)
Definition emptyTimeline : Timeline.t :=
  {| Timeline.frames := ∅; Timeline.frameCount := 20;
     Timeline.currentFrame := 10; Timeline.activeFrames := [];
     Timeline.framePoints := ∅ |}.

End Fixture.

(** ** The shape of a tracker loop

    [frame_steps env startFrame totalFrames n f run]: [run] is what a loop
    with [n] iterations left, about to treat frame [f], can produce.  Each
    treated frame passed the cancellation check, yielded its progress
    record, and then either threw or yielded its result.  Where the loop
    stops, the run ends as the [finally] block leaves it. *)
Inductive frame_steps (env : Env.t) (startFrame totalFrames : Z)
  : nat -> Z -> Run -> Prop :=
| steps_stop n f ending :
    frame_steps env startFrame totalFrames n f ([], ending)
| steps_threw n f e :
    signal_aborted env f = false ->
    frame_steps env startFrame totalFrames (S n) f
      ([Progress {| TrackingProgress.frame := f - startFrame;
                    TrackingProgress.total := totalFrames |}], Threw e)
| steps_result n f r k :
    signal_aborted env f = false ->
    TrackingResult.frameNumber r = f ->
    frame_steps env startFrame totalFrames n (f + 1) k ->
    frame_steps env startFrame totalFrames (S n) f
      (yield (Progress {| TrackingProgress.frame := f - startFrame;
                          TrackingProgress.total := totalFrames |})
         (yield (Result r) k)).

(** ** Predicates used by the statements *)

(** Each item's frame field lies in (startFrame, endFrame]. *)
Definition carried_frames_in_range (config : TrackingConfig.t) (run : Run) : Prop :=
  Forall (fun i => TrackingConfig.startFrame config < carried_frame i
                   <= TrackingConfig.endFrame config) (fst run).

(** The contract of [cv.matchTemplate] and [cv.minMaxLoc]: when the template
    fits in the image the result matrix has
    (image.cols - templ.cols + 1) x (image.rows - templ.rows + 1) entries,
    and [maxLoc] is the position of one of them. *)
Definition matchTemplate_in_result (env : Env.t) : Prop :=
  forall image templ : Mat.t,
    Mat.cols templ <= Mat.cols image ->
    Mat.rows templ <= Mat.rows image ->
    let minMax := Env.matchTemplate env image templ in
    0 <= MinMaxLoc.maxLoc_x minMax <= Mat.cols image - Mat.cols templ /\
    0 <= MinMaxLoc.maxLoc_y minMax <= Mat.rows image - Mat.rows templ.

(** The centre [c] of a box of the given [size] that lies inside
    [0, extent]. *)
Definition center_in (size extent : Z) (c : Q) : Prop :=
  (inject_Z size / 2 <= c <= inject_Z extent - inject_Z size / 2)%Q.

Definition result_in_bounds (config : TrackingConfig.t)
  (templateW templateH : Z) (r : TrackingResult.t) : Prop :=
  center_in templateW (Video.videoWidth (TrackingConfig.video config))
    (TrackingResult.x r) /\
  center_in templateH (Video.videoHeight (TrackingConfig.video config))
    (TrackingResult.y r).

(** The results the consumption loop keeps: those before the first one
    whose confidence is below the threshold. *)
Fixpoint accepted_prefix (rs : list TrackingResult.t) : list TrackingResult.t :=
  match rs with
  | [] => []
  | r :: rest =>
      if Qlt_le_dec (TrackingResult.confidence r) confidenceThreshold then []
      else r :: accepted_prefix rest
  end.

(** The point the commit phase builds for a result whose timeline frame
    carries the result's own frame number. *)
Definition pointOf (id : nat) (r : TrackingResult.t) : Point.t :=
  {| Point.id := id;
     Point.frame := {| Frame.number := TrackingResult.frameNumber r |};
     Point.x := TrackingResult.x r; Point.y := TrackingResult.y r |}.

(** [timeline.frames] has a frame object for each of the results, numbered
    like its index. *)
Definition timeline_has (tl : Timeline.t) (rs : list TrackingResult.t) : Prop :=
  forall r, In r rs ->
    Timeline.frames tl !! TrackingResult.frameNumber r =
      Some {| Frame.number := TrackingResult.frameNumber r |}.

(** [timeline.frames] has a frame object for each frame number of the
    range (startFrame, endFrame], numbered like its index. *)
Definition timeline_covers (tl : Timeline.t) (startFrame endFrame : Z) : Prop :=
  forall f : Z, startFrame < f <= endFrame ->
    Timeline.frames tl !! f = Some {| Frame.number := f |}.

(** The points built for a batch of results, the first one being the
    [id]-th point ever constructed, and the track mapping once they are
    stored. *)
Fixpoint pointsOf (id : nat) (rs : list TrackingResult.t) : list Point.t :=
  match rs with
  | [] => []
  | r :: rest => pointOf id r :: pointsOf (S id) rest
  end.

Fixpoint insert_results (id : nat) (rs : list TrackingResult.t)
  (points : gmap Z Point.t) : gmap Z Point.t :=
  match rs with
  | [] => points
  | r :: rest =>
      insert_results (S id) rest
        (<[TrackingResult.frameNumber r := pointOf id r]> points)
  end.

(** Every point of the track sits under its own frame number. *)
Definition track_keyed (points : gmap Z Point.t) : Prop :=
  forall (f : Z) (p : Point.t),
    points !! f = Some p -> Frame.number (Point.frame p) = f.

(** Every seek the tracker issues is answered by ['seeked'] before the
    timer, and the canvas context is always available. *)
Definition sampling_succeeds (env : Env.t) : Prop :=
  forall f : Z, Env.seekEv env f = EvSeeked /\ Env.context2d env f = true.

(** The flow finds the point in every pair of frames. *)
Definition flow_always_tracks (env : Env.t) : Prop :=
  forall (prevGray currGray : Mat.t) (prevPts : Q * Q),
    fst (Env.calcOpticalFlowPyrLK env prevGray currGray prevPts) = 1.









(** ** Selecting the region (lines 441-525)

    The closure variables of [startROISelection], and its [mousedown] and
    [pressup] handlers.  [toScaled] is [master.toScaled], from stage to
    video coordinates.  The listeners registered on the stage are not part
    of the model. *)

Module Drag.
Record t := mk {
  drawing : bool;
  startX : Q;
  startY : Q;
  startStageX : Q;
  startStageY : Q
}.
End Drag.

Definition onMouseDown (toScaled : Q * Q -> Q * Q) (stageX stageY : Q)
  (d : Drag.t) : Drag.t :=
  let coords := toScaled (stageX, stageY) in
  {| Drag.drawing := true;
     Drag.startX := fst coords; Drag.startY := snd coords;
     Drag.startStageX := stageX; Drag.startStageY := stageY |}.

(** Lines 490-494: the region between the start of the drag and its end,
    both in video coordinates. *)
Definition dragROI (startX startY endX endY : Q) : ROI.t :=
  {| ROI.x := Qmin startX endX;
     ROI.y := Qmin startY endY;
     ROI.width := Qabs (endX - startX);
     ROI.height := Qabs (endY - startY) |}.

(** What [pressup] did: nothing (no drag in progress), the "Please draw a
    larger region to track." alert, or a region stored and the modal
    shown. *)
Inductive PressUp :=
| PressIgnored
| PressTooSmall
| PressSelected (roi : ROI.t).

(** Lines 503-519: [currentROI = ...; autoTrackModal.show()]. *)
Definition showModalFor (roi : ROI.t) (w : World.t) : World.t :=
  let u := World.ui w in
  {| World.hasTrack := World.hasTrack w; World.track := World.track w;
     World.timeline := World.timeline w; World.history := World.history w;
     World.allocated := World.allocated w;
     World.currentROI := Some roi;
     World.ui :=
       {| Ui.modalVisible := true; Ui.modalText := Ui.modalText u;
          Ui.submitDisabled := Ui.submitDisabled u;
          Ui.submitLabel := Ui.submitLabel u; Ui.roiShape := Ui.roiShape u;
          Ui.detachedVideos := Ui.detachedVideos u;
          Ui.alerts := Ui.alerts u |} |}.

Definition onPressUp (toScaled : Q * Q -> Q * Q) (stageX stageY : Q)
  (d : Drag.t) (w : World.t) : Drag.t * World.t * PressUp :=
  if negb (Drag.drawing d) then (d, w, PressIgnored)
  else
    let d' := {| Drag.drawing := false;
                 Drag.startX := Drag.startX d; Drag.startY := Drag.startY d;
                 Drag.startStageX := Drag.startStageX d;
                 Drag.startStageY := Drag.startStageY d |} in
    let endCoords := toScaled (stageX, stageY) in
    let roi := dragROI (Drag.startX d) (Drag.startY d)
                 (fst endCoords) (snd endCoords) in
    if Qlt_le_dec (ROI.width roi) 5 then
      (d', cleanupROISelection w, PressTooSmall)
    else if Qlt_le_dec (ROI.height roi) 5 then
      (d', cleanupROISelection w, PressTooSmall)
    else (d', showModalFor roi w, PressSelected roi).

(** ** The OpenCV loader ([loadOpenCV])

    The promises the loader has created, in order; [cvReady] and the hooks
    refer to them by position. *)

Inductive LoadState :=
| Loading
| Ready
| Failed.

Module Loader.
Record t := mk {
  (** the module variable [cvReady] *)
  cvReady : option nat;
  promises : list LoadState;
  (** for each [<script>] appended to the head, the promise its [onerror]
      rejects *)
  scripts : list nat;
  (** the promise [window.Module.onRuntimeInitialized] resolves *)
  moduleHook : option nat;
  (** [typeof cv !== 'undefined' && cv.Mat] *)
  cvDefined : bool
}.
End Loader.

Definition loadOpenCV (l : Loader.t) : Loader.t * nat :=
  match Loader.cvReady l with
  | Some p => (l, p)
  | None =>
      let p := length (Loader.promises l) in
      if Loader.cvDefined l then
        ({| Loader.cvReady := Some p;
            Loader.promises := Loader.promises l ++ [Ready];
            Loader.scripts := Loader.scripts l;
            Loader.moduleHook := Loader.moduleHook l;
            Loader.cvDefined := Loader.cvDefined l |}, p)
      else
        ({| Loader.cvReady := Some p;
            Loader.promises := Loader.promises l ++ [Loading];
            Loader.scripts := Loader.scripts l ++ [p];
            Loader.moduleHook := Some p;
            Loader.cvDefined := Loader.cvDefined l |}, p)
  end.

(** Settling a promise: only a pending one changes. *)
Definition settle (p : nat) (st : LoadState) (ps : list LoadState)
  : list LoadState :=
  match ps !! p with
  | Some Loading => <[p := st]> ps
  | _ => ps
  end.

(** What can happen to the loader: a call, OpenCV finishing its start-up
    (the script has run, so [cv] is defined, and it calls
    [Module.onRuntimeInitialized]), and the [onerror] of the [k]-th
    script. *)
Inductive LoaderOp :=
| CallLoadOpenCV
| RuntimeInitialized
| ScriptError (k : nat).

Definition loader_step (l : Loader.t) (op : LoaderOp) : Loader.t :=
  match op with
  | CallLoadOpenCV => fst (loadOpenCV l)
  | RuntimeInitialized =>
      {| Loader.cvReady := Loader.cvReady l;
         Loader.promises :=
           match Loader.moduleHook l with
           | Some p => settle p Ready (Loader.promises l)
           | None => Loader.promises l
           end;
         Loader.scripts := Loader.scripts l;
         Loader.moduleHook := Loader.moduleHook l;
         Loader.cvDefined := true |}
  | ScriptError k =>
      match Loader.scripts l !! k with
      | Some p =>
          {| Loader.cvReady := None;
             Loader.promises := settle p Failed (Loader.promises l);
             Loader.scripts := Loader.scripts l;
             Loader.moduleHook := Loader.moduleHook l;
             Loader.cvDefined := Loader.cvDefined l |}
      | None => l
      end
  end.

(** The loader when the page has just been loaded. *)
Definition freshLoader (cvDefined : bool) : Loader.t :=
  {| Loader.cvReady := None; Loader.promises := []; Loader.scripts := [];
     Loader.moduleHook := None; Loader.cvDefined := cvDefined |}.

(** ** The webcam module *)

(** The MIME types tried by [getSupportedMimeType], in order. *)
Definition mimeTypes : list string :=
  ["video/webm;codecs=vp9"; "video/webm;codecs=vp8"; "video/webm";
   "video/mp4"]%string.

(** [types.find((type) => MediaRecorder.isTypeSupported(type)) || ''] *)
Definition getSupportedMimeType (isTypeSupported : string -> bool) : string :=
  match List.find isTypeSupported mimeTypes with
  | Some type => type
  | None => ""%string
  end.

(** [fixWebmDuration]: the promise and what its four callbacks do.  A
    duration that is not finite (NaN, Infinity) is [None]. *)
Inductive FixError :=
| CouldNotDetermineDuration
| FailedToLoadVideo
| FixTimedOut.

Inductive FixPromise :=
| FixPending
| FixResolved (duration : Q)
| FixRejected (e : FixError).

Inductive FixEvent :=
| LoadedMetadata (duration : option Q)
| VideoSeeked (duration : option Q)
| VideoError
| FixTimerFired.

Module Fix.
Record t := mk {
  promise : FixPromise;
  currentTime : Z;
  (** calls of [URL.revokeObjectURL(blobUrl)] *)
  revoked : nat
}.
End Fix.

(** [Number.isFinite(duration) && duration > 0] *)
Definition validDuration (duration : option Q) : option Q :=
  match duration with
  | Some d => if Qlt_le_dec 0 d then Some d else None
  | None => None
  end.

Definition fixResolve (d : Q) (p : FixPromise) : FixPromise :=
  match p with FixPending => FixResolved d | _ => p end.

Definition fixReject (e : FixError) (p : FixPromise) : FixPromise :=
  match p with FixPending => FixRejected e | _ => p end.

Definition MAX_SAFE_INTEGER : Z := 2 ^ 53 - 1.

Definition fix_start : Fix.t :=
  {| Fix.promise := FixPending; Fix.currentTime := 0; Fix.revoked := 0 |}.

Definition fix_event (s : Fix.t) (ev : FixEvent) : Fix.t :=
  match ev with
  | LoadedMetadata duration =>
      match validDuration duration with
      | Some d =>
          {| Fix.promise := fixResolve d (Fix.promise s);
             Fix.currentTime := Fix.currentTime s;
             Fix.revoked := S (Fix.revoked s) |}
      | None =>
          {| Fix.promise := Fix.promise s;
             Fix.currentTime := MAX_SAFE_INTEGER;
             Fix.revoked := Fix.revoked s |}
      end
  | VideoSeeked duration =>
      {| Fix.promise :=
           match validDuration duration with
           | Some d => fixResolve d (Fix.promise s)
           | None => fixReject CouldNotDetermineDuration (Fix.promise s)
           end;
         Fix.currentTime := 0;
         Fix.revoked := S (Fix.revoked s) |}
  | VideoError =>
      {| Fix.promise := fixReject FailedToLoadVideo (Fix.promise s);
         Fix.currentTime := Fix.currentTime s;
         Fix.revoked := S (Fix.revoked s) |}
  | FixTimerFired =>
      {| Fix.promise := fixReject FixTimedOut (Fix.promise s);
         Fix.currentTime := Fix.currentTime s;
         Fix.revoked := S (Fix.revoked s) |}
  end.

Definition fixWebmDuration (events : list FixEvent) : Fix.t :=
  fold_left fix_event events fix_start.

(** [WebcamRecorder].  A stream is the number of its tracks, all live while
    the recorder holds it; [liveTracks] counts the live camera tracks of
    the page.  A chunk is the size of its blob. *)
Inductive RecorderState := Inactive | Recording.

Module Webcam.
Record t := mk {
  stream : option nat;
  mediaRecorder : option RecorderState;
  recordedChunks : list N;
  previewElement : bool;
  previewHasStream : bool;
  currentDeviceId : option string;
  liveTracks : nat
}.
End Webcam.

Inductive WebcamError :=
| NoActiveStream
| NoActiveRecording
| GetUserMediaRejected
| RecorderInactive.

(** [stopPreview] *)
Definition stopPreview (c : Webcam.t) : Webcam.t :=
  {| Webcam.stream := None;
     Webcam.mediaRecorder := Webcam.mediaRecorder c;
     Webcam.recordedChunks := Webcam.recordedChunks c;
     Webcam.previewElement := Webcam.previewElement c;
     Webcam.previewHasStream :=
       if Webcam.previewElement c then false else Webcam.previewHasStream c;
     Webcam.currentDeviceId := Webcam.currentDeviceId c;
     Webcam.liveTracks :=
       match Webcam.stream c with
       | Some k => (Webcam.liveTracks c - k)%nat
       | None => Webcam.liveTracks c
       end |}.

(** [requestPermission]; [granted] is the number of tracks of the stream
    [getUserMedia] hands out, or nothing when it rejects. *)
Definition requestPermission (granted : option nat) (c : Webcam.t)
  : Webcam.t * bool :=
  match granted with
  | Some k =>
      ({| Webcam.stream := Webcam.stream c;
          Webcam.mediaRecorder := Webcam.mediaRecorder c;
          Webcam.recordedChunks := Webcam.recordedChunks c;
          Webcam.previewElement := Webcam.previewElement c;
          Webcam.previewHasStream := Webcam.previewHasStream c;
          Webcam.currentDeviceId := Webcam.currentDeviceId c;
          Webcam.liveTracks := (Webcam.liveTracks c + k - k)%nat |}, true)
  | None => (c, false)
  end.

(** [deviceId || null] *)
Definition deviceOrNull (deviceId : option string) : option string :=
  match deviceId with
  | Some ""%string => None
  | d => d
  end.

(** [startPreview] from the call to its [await getUserMedia(...)]: the
    part that runs when the method is called. *)
Definition startPreview_call (c : Webcam.t) : Webcam.t := stopPreview c.

(** [startPreview] from the moment [getUserMedia] settles.  [granted] is
    the number of tracks of the stream it hands out, live from then on, or
    nothing when it rejects.  The recorder is the one found at that
    moment: other calls may have run since [startPreview_call]. *)
Definition startPreview_resume (granted : option nat) (deviceId : option string)
  (c : Webcam.t) : Webcam.t * option WebcamError :=
  match granted with
  | None => (c, Some GetUserMediaRejected)
  | Some k =>
      ({| Webcam.stream := Some k;
          Webcam.mediaRecorder := Webcam.mediaRecorder c;
          Webcam.recordedChunks := Webcam.recordedChunks c;
          Webcam.previewElement := true;
          Webcam.previewHasStream := true;
          Webcam.currentDeviceId := deviceOrNull deviceId;
          Webcam.liveTracks := (Webcam.liveTracks c + k)%nat |}, None)
  end.

(** [await startPreview(...)] with no other call on the recorder while
    [getUserMedia] is pending. *)
Definition startPreview (granted : option nat) (deviceId : option string)
  (c : Webcam.t) : Webcam.t * option WebcamError :=
  startPreview_resume granted deviceId (startPreview_call c).

(** [startRecording] *)
Definition startRecording (c : Webcam.t) : Webcam.t * option WebcamError :=
  match Webcam.stream c with
  | None => (c, Some NoActiveStream)
  | Some _ =>
      ({| Webcam.stream := Webcam.stream c;
          Webcam.mediaRecorder := Some Recording;
          Webcam.recordedChunks := [];
          Webcam.previewElement := Webcam.previewElement c;
          Webcam.previewHasStream := Webcam.previewHasStream c;
          Webcam.currentDeviceId := Webcam.currentDeviceId c;
          Webcam.liveTracks := Webcam.liveTracks c |}, None)
  end.

Definition setChunks (chunks : list N) (c : Webcam.t) : Webcam.t :=
  {| Webcam.stream := Webcam.stream c;
     Webcam.mediaRecorder := Webcam.mediaRecorder c;
     Webcam.recordedChunks := chunks;
     Webcam.previewElement := Webcam.previewElement c;
     Webcam.previewHasStream := Webcam.previewHasStream c;
     Webcam.currentDeviceId := Webcam.currentDeviceId c;
     Webcam.liveTracks := Webcam.liveTracks c |}.

(** [mediaRecorder.ondataavailable] *)
Definition ondataavailable (size : N) (c : Webcam.t) : Webcam.t :=
  if (0 <? size)%N then setChunks (Webcam.recordedChunks c ++ [size]) c else c.

(** [mediaRecorder.onstop] as set by [stopRecording]: the chunks of the
    blob it resolves with, and the recorder afterwards. *)
Definition onstop (c : Webcam.t) : Webcam.t * list N :=
  (setChunks [] c, Webcam.recordedChunks c).

(** [stopRecording], given the sizes the recorder still delivers between
    [stop()] and its ['stop'] event: the rejection, or the chunks of the
    blob.  On a recorder that is not recording [stop()] delivers no ['stop']
    event, and the promise does not resolve ([RecorderInactive]). *)
Definition stopRecording (pending : list N) (c : Webcam.t)
  : Webcam.t * (WebcamError + list N) :=
  match Webcam.mediaRecorder c with
  | None => (c, inl NoActiveRecording)
  | Some Inactive => (c, inl RecorderInactive)
  | Some Recording =>
      let c :=
        {| Webcam.stream := Webcam.stream c;
           Webcam.mediaRecorder := Some Inactive;
           Webcam.recordedChunks := Webcam.recordedChunks c;
           Webcam.previewElement := Webcam.previewElement c;
           Webcam.previewHasStream := Webcam.previewHasStream c;
           Webcam.currentDeviceId := Webcam.currentDeviceId c;
           Webcam.liveTracks := Webcam.liveTracks c |} in
      let c := fold_left (fun c size => ondataavailable size c) pending c in
      let '(c, blob) := onstop c in
      (c, inr blob)
  end.

(** [cleanup] *)
Definition cleanup (c : Webcam.t) : Webcam.t :=
  let c := stopPreview c in
  {| Webcam.stream := Webcam.stream c;
     Webcam.mediaRecorder := None;
     Webcam.recordedChunks := [];
     Webcam.previewElement := Webcam.previewElement c;
     Webcam.previewHasStream := Webcam.previewHasStream c;
     Webcam.currentDeviceId := Webcam.currentDeviceId c;
     Webcam.liveTracks := Webcam.liveTracks c |}.

(** What can happen to one recorder: the calls a page can make, and the
    two halves of a [startPreview] that is not awaited, between which
    anything else may happen. *)
Inductive WebcamOp :=
| OpRequestPermission (granted : option nat)
| OpStartPreview (granted : option nat) (deviceId : option string)
| OpStartPreviewCall
| OpStartPreviewResume (granted : option nat) (deviceId : option string)
| OpStopPreview
| OpStartRecording
| OpData (size : N)
| OpStopRecording (pending : list N)
| OpCleanup.

Definition webcam_step (c : Webcam.t) (op : WebcamOp) : Webcam.t :=
  match op with
  | OpRequestPermission granted => fst (requestPermission granted c)
  | OpStartPreview granted deviceId => fst (startPreview granted deviceId c)
  | OpStartPreviewCall => startPreview_call c
  | OpStartPreviewResume granted deviceId =>
      fst (startPreview_resume granted deviceId c)
  | OpStopPreview => stopPreview c
  | OpStartRecording => fst (startRecording c)
  | OpData size => ondataavailable size c
  | OpStopRecording pending => fst (stopRecording pending c)
  | OpCleanup => cleanup c
  end.

(** [new WebcamRecorder()] on a page that has [n] live camera tracks of
    its own. *)
Definition newWebcamRecorder (n : nat) : Webcam.t :=
  {| Webcam.stream := None; Webcam.mediaRecorder := None;
     Webcam.recordedChunks := []; Webcam.previewElement := false;
     Webcam.previewHasStream := false; Webcam.currentDeviceId := None;
     Webcam.liveTracks := n |}.

(** The tracks of the stream the recorder holds. *)
Definition held_tracks (c : Webcam.t) : nat :=
  match Webcam.stream c with
  | Some k => k
  | None => 0%nat
  end.

(** Every [startPreview] of the sequence is awaited before the next call. *)
Definition awaited (op : WebcamOp) : bool :=
  match op with
  | OpStartPreviewCall | OpStartPreviewResume _ _ => false
  | _ => true
  end.

(** The tracks that stay live with no reference left to stop them: those
    of each stream a resuming [startPreview] found in [this.stream] and
    replaced. *)
Fixpoint leakedTracks (c : Webcam.t) (ops : list WebcamOp) : nat :=
  match ops with
  | [] => 0%nat
  | op :: rest =>
      (match op with
       | OpStartPreviewResume (Some _) _ => held_tracks c
       | _ => 0
       end + leakedTracks (webcam_step c op) rest)%nat
  end.

(** ** The scrubber ([scrubber.js]) *)

(** [updateScrubber(time, total)]: the new [thumb.x], on a line that starts
    at [rect_x] and is [rect_w] wide. *)
Definition updateScrubber (rect_x rect_w time total : Q) : Q :=
  (time / total * rect_w + rect_x)%Q.

(** ** Loading a video or a project ([ts/load.ts])

    A ['playing'] listener added by [loadProject] captures the text of
    [meta.json] (if the archive has one) and whether a callback was
    given.  [parses] says whether [JSON.parse] accepts a text. *)

Module Listener.
Record t := mk { meta : option string; hasCallback : bool }.
End Listener.

Module Page.
Record t := mk {
  (** [master.videoFile] *)
  videoFile : option string;
  (** the blob behind [master.timeline.video.src] *)
  videoSrc : option string;
  playingListeners : list Listener.t;
  (** the arguments of the calls of [master.load], oldest first *)
  loads : list string;
  loaderHidden : bool;
  (** [master.saved] *)
  saved : bool;
  (** calls of [master.trigger('created')] *)
  createdTriggers : nat;
  callbackRuns : nat
}.
End Page.

(** [loadVideo(file, callback)] with the callback of [loadProject], or with
    none. *)
Definition loadVideo (file : string) (callback : option Listener.t)
  (pg : Page.t) : Page.t :=
  {| Page.videoFile := Some file;
     Page.videoSrc := Some file;
     Page.playingListeners :=
       match callback with
       | Some l => Page.playingListeners pg ++ [l]
       | None => Page.playingListeners pg
       end;
     Page.loads := Page.loads pg;
     Page.loaderHidden := Page.loaderHidden pg;
     Page.saved := Page.saved pg;
     Page.createdTriggers := Page.createdTriggers pg;
     Page.callbackRuns := Page.callbackRuns pg |}.

(** [loadProject(file, callback)] once the archive has been read; [None]
    when [JSZipUtils.getBinaryContent] reports an error, which is
    rethrown. *)
Definition loadProject (readError : bool) (files : string -> option string)
  (hasCallback : bool) (pg : Page.t) : option Page.t :=
  if readError then None
  else
    match files "video.mp4"%string with
    | Some videoBlob =>
        Some (loadVideo videoBlob
                (Some {| Listener.meta := files "meta.json"%string;
                         Listener.hasCallback := hasCallback |}) pg)
    | None => Some pg
    end.

(** One listener of [loadProject] running (lines 30-43). *)
Definition runListener (parses : string -> bool) (pg : Page.t) (l : Listener.t)
  : Page.t :=
  match Listener.meta l with
  | Some projectJson =>
      if parses projectJson then
        {| Page.videoFile := Page.videoFile pg;
           Page.videoSrc := Page.videoSrc pg;
           Page.playingListeners := Page.playingListeners pg;
           Page.loads := Page.loads pg ++ [projectJson];
           Page.loaderHidden := true;
           Page.saved := true;
           Page.createdTriggers := S (Page.createdTriggers pg);
           Page.callbackRuns :=
             if Listener.hasCallback l then S (Page.callbackRuns pg)
             else Page.callbackRuns pg |}
      else pg
  | None => pg
  end.

(** A ['playing'] event of the video. *)
Definition onPlaying (parses : string -> bool) (pg : Page.t) : Page.t :=
  fold_left (runListener parses) (Page.playingListeners pg) pg.

(** * Properties *)

(** ** Rounding and clamping *)

Lemma clamp_lower value min max : min <= clamp value min max.
Proof. unfold clamp. lia. Qed.

Lemma clamp_upper value min max : min <= max -> clamp value min max <= max.
Proof. unfold clamp. lia. Qed.


(** ** Every run is a sequence of frame steps *)

Lemma templateMatch_loop_steps env config template n f t cx cy :
  frame_steps env (TrackingConfig.startFrame config)
    (TrackingConfig.endFrame config - TrackingConfig.startFrame config)
    n f (templateMatch_loop env config template n f t cx cy).
Proof.
  revert f t cx cy. induction n as [|n IH]; intros f t cx cy; simpl.
  - constructor.
  - destruct (signal_aborted env f) eqn:Hab; [constructor|].
    destruct (sampleFrame env f t) as [e|[frameGray t']].
    + now constructor.
    + match goal with |- context [if ?c then _ else _] => destruct c end.
      * apply steps_result; [assumption|reflexivity|constructor].
      * apply steps_result; [assumption|reflexivity|apply IH].
Qed.

Lemma opticalFlow_loop_steps env config n f t prevGray prevPts :
  frame_steps env (TrackingConfig.startFrame config)
    (TrackingConfig.endFrame config - TrackingConfig.startFrame config)
    n f (opticalFlow_loop env config n f t prevGray prevPts).
Proof.
  revert f t prevGray prevPts.
  induction n as [|n IH]; intros f t prevGray prevPts; simpl.
  - constructor.
  - destruct (signal_aborted env f) eqn:Hab; [constructor|].
    destruct (sampleFrame env f t) as [e|[currGray t']].
    + now constructor.
    + destruct (Env.calcOpticalFlowPyrLK env prevGray currGray prevPts)
        as [status nextPts].
      destruct (status =? 1).
      * apply steps_result; [assumption|reflexivity|apply IH].
      * apply steps_result; [assumption|reflexivity|constructor].
Qed.

Lemma trackObject_steps env config :
  frame_steps env (TrackingConfig.startFrame config)
    (TrackingConfig.endFrame config - TrackingConfig.startFrame config)
    (iterations config) (TrackingConfig.startFrame config + 1)
    (trackObject env config)
  \/ exists e, trackObject env config = ([], Threw e).
Proof.
  unfold trackObject, opticalFlowTrack, templateMatchTrack.
  destruct (TrackingConfig.algorithm config);
    destruct (sampleFrame env _ _) as [e|[g t']]; eauto.
  - left. apply templateMatch_loop_steps.
  - left. apply opticalFlow_loop_steps.
Qed.

(** ** Frame numbers along a run *)

Lemma seqZ_sorted (m : Z) (k : nat) : StronglySorted Z.lt (seqZ m (Z.of_nat k)).
Proof.
  revert m. induction k as [|k IH]; intros m.
  - rewrite seqZ_nil by lia. constructor.
  - rewrite seqZ_cons by lia.
    replace (Z.pred (Z.of_nat (S k))) with (Z.of_nat k) by lia.
    constructor; [apply IH|].
    apply Forall_seqZ. intros; lia.
Qed.

Lemma frame_steps_frames env s total n f run :
  frame_steps env s total n f run ->
  exists k : nat,
    (k <= n)%nat /\
    result_frames (fst run) = seqZ f (Z.of_nat k) /\
    (progress_frames (fst run) = seqZ (f - s) (Z.of_nat k) \/
     ((k < n)%nat /\
      progress_frames (fst run) = seqZ (f - s) (Z.of_nat k + 1))).
Proof.
  induction 1 as [n f|n f e Hgo|n f r k Hgo Hr Hk IH].
  - exists 0%nat. split; [lia|]. split; [|left]; now rewrite seqZ_nil by lia.
  - exists 0%nat. split; [lia|]. split; [now rewrite seqZ_nil by lia|right].
    split; [lia|]. now rewrite seqZ_cons, seqZ_nil by lia.
  - destruct IH as (j & Hj & Hres & Hprog). exists (S j).
    split; [lia|]. split.
    + unfold result_frames in *. cbn. rewrite Hr.
      rewrite (seqZ_cons f) by lia. f_equal.
      replace (Z.pred (Z.of_nat (S j))) with (Z.of_nat j) by lia.
      exact Hres.
    + unfold progress_frames in *. cbn.
      destruct Hprog as [Hprog|[Hlt Hprog]]; [left|right; split; [lia|]];
        rewrite (seqZ_cons (f - s)) by lia; f_equal;
        (etransitivity; [exact Hprog|f_equal; lia]).
Qed.

Lemma frame_steps_progress_first env s total n f run :
  frame_steps env s total n f run ->
  forall (i : nat) (r : TrackingResult.t),
    fst run !! i = Some (Result r) ->
    exists j : nat,
      i = S j /\
      fst run !! j =
        Some (Progress {| TrackingProgress.frame :=
                            TrackingResult.frameNumber r - s;
                          TrackingProgress.total := total |}).
Proof.
  induction 1 as [n f|n f e Hgo|n f r k Hgo Hr Hk IH]; intros i r' Hi.
  - destruct i; discriminate.
  - destruct i as [|[|i]]; discriminate.
  - destruct i as [|[|i]]; cbn in Hi.
    + discriminate.
    + injection Hi as ->. exists 0%nat. split; [reflexivity|].
      cbn. now rewrite Hr.
    + destruct (IH _ _ Hi) as (j & -> & Hj).
      exists (S (S j)). split; [reflexivity|exact Hj].
Qed.

(** A frame that was treated had not seen the cancellation. *)
Lemma frame_steps_before_cancel env s total n f run (K : Z) :
  Env.cancelAt env = Some (K + 1) ->
  frame_steps env s total n f run ->
  Forall (fun g => g <= K) (result_frames (fst run)) /\
  Forall (fun g => g <= K - s) (progress_frames (fst run)).
Proof.
  intros Hc.
  assert (Hle : forall g, signal_aborted env g = false -> g <= K).
  { intros g. unfold signal_aborted. rewrite Hc. lia. }
  induction 1 as [n f|n f e Hgo|n f r k Hgo Hr Hk IH].
  - split; constructor.
  - apply Hle in Hgo. split; [constructor|].
    unfold progress_frames; cbn. constructor; [lia|constructor].
  - apply Hle in Hgo. destruct IH as [IHr IHp]. split.
    + unfold result_frames in *; cbn. constructor; [lia|exact IHr].
    + unfold progress_frames in *; cbn. constructor; [lia|exact IHp].
Qed.

(** C2 does not hold for the frame field of the progress records: with
    startFrame = 10 and endFrame = 15 the first progress record carries
    [frame = 1], the offset into the range, which is not in (10, 15]. *)
Lemma C2_progress_offset_outside_range :
  let config := Fixture.config Template 20 in
  TrackingConfig.startFrame config < TrackingConfig.endFrame config /\
  ~ carried_frames_in_range config (trackObject Fixture.env config).
Proof.
  split; [reflexivity|].
  intros H. unfold carried_frames_in_range in H.
  rewrite Forall_forall in H.
  specialize (H (Progress {| TrackingProgress.frame := 1;
                             TrackingProgress.total := 5 |})).
  assert (Hin : In (Progress {| TrackingProgress.frame := 1;
                                TrackingProgress.total := 5 |})
                  (fst (trackObject Fixture.env (Fixture.config Template 20)))).
  { vm_compute. left. reflexivity. }
  apply list_elem_of_In in Hin. apply H in Hin. cbn in Hin. lia.
Qed.

(** The frames of a run of either tracker: consecutive result frames from
    startFrame+1, progress offsets from 1, each result right after the
    progress record of its frame. *)
Lemma trackObject_frames_in_order (env : Env.t) (config : TrackingConfig.t) :
  let startFrame := TrackingConfig.startFrame config in
  let endFrame := TrackingConfig.endFrame config in
  let items := fst (trackObject env config) in
  exists k : nat,
    (k <= Z.to_nat (endFrame - startFrame))%nat /\
    result_frames items = seqZ (startFrame + 1) (Z.of_nat k) /\
    (progress_frames items = seqZ 1 (Z.of_nat k) \/
     ((k < Z.to_nat (endFrame - startFrame))%nat /\
      progress_frames items = seqZ 1 (Z.of_nat k + 1))) /\
    StronglySorted Z.lt (result_frames items) /\
    Forall (fun f => startFrame < f <= endFrame) (result_frames items) /\
    StronglySorted Z.lt (progress_frames items) /\
    Forall (fun f => 0 < f <= endFrame - startFrame) (progress_frames items) /\
    (forall (i : nat) (r : TrackingResult.t),
        items !! i = Some (Result r) ->
        exists j : nat,
          i = S j /\
          items !! j =
            Some (Progress {| TrackingProgress.frame :=
                                TrackingResult.frameNumber r - startFrame;
                              TrackingProgress.total := endFrame - startFrame |})).
Proof.
  cbv zeta.
  destruct (trackObject_steps env config) as [Hsteps|[e He]].
  - destruct (frame_steps_frames _ _ _ _ _ _ Hsteps) as (k & Hk & Hres & Hprog).
    unfold iterations in Hk, Hprog.
    replace (TrackingConfig.startFrame config + 1
             - TrackingConfig.startFrame config) with 1 in Hprog by lia.
    exists k. split; [exact Hk|]. split; [exact Hres|]. split; [exact Hprog|].
    split; [rewrite Hres; apply seqZ_sorted|].
    split; [rewrite Hres; apply Forall_seqZ; intros; lia|].
    split.
    { destruct Hprog as [->|[_ ->]]; [apply seqZ_sorted|].
      replace (Z.of_nat k + 1) with (Z.of_nat (S k)) by lia. apply seqZ_sorted. }
    split.
    { destruct Hprog as [->|[Hlt ->]]; apply Forall_seqZ; intros; lia. }
    exact (frame_steps_progress_first _ _ _ _ _ _ Hsteps).
  - rewrite He. cbn. exists 0%nat.
    split; [lia|]. split; [now rewrite seqZ_nil by lia|].
    split; [left; now rewrite seqZ_nil by lia|].
    repeat split; try constructor.
    intros i r Hi. destruct i; discriminate.
Qed.

(** C2, amended: for either algorithm the results carry the frame numbers
    startFrame+1, startFrame+2, ... in that order (so they are strictly
    increasing and inside (startFrame, endFrame]); the progress records
    carry the offsets 1, 2, ... of those frames from startFrame (strictly
    increasing, inside (0, endFrame - startFrame]); and every result comes
    right after the progress record of its own frame. *)
Theorem C2_frames_in_order (env : Env.t) (config : TrackingConfig.t) :
  let startFrame := TrackingConfig.startFrame config in
  let endFrame := TrackingConfig.endFrame config in
  let items := fst (trackObject env config) in
  exists k : nat,
    (k <= Z.to_nat (endFrame - startFrame))%nat /\
    result_frames items = seqZ (startFrame + 1) (Z.of_nat k) /\
    (progress_frames items = seqZ 1 (Z.of_nat k) \/
     ((k < Z.to_nat (endFrame - startFrame))%nat /\
      progress_frames items = seqZ 1 (Z.of_nat k + 1))) /\
    StronglySorted Z.lt (result_frames items) /\
    Forall (fun f => startFrame < f <= endFrame) (result_frames items) /\
    StronglySorted Z.lt (progress_frames items) /\
    Forall (fun f => 0 < f <= endFrame - startFrame) (progress_frames items) /\
    (forall (i : nat) (r : TrackingResult.t),
        items !! i = Some (Result r) ->
        exists j : nat,
          i = S j /\
          items !! j =
            Some (Progress {| TrackingProgress.frame :=
                                TrackingResult.frameNumber r - startFrame;
                              TrackingProgress.total := endFrame - startFrame |})).
Proof. exact (trackObject_frames_in_order env config). Qed.

(** C6: the signal is read once per frame, at the top of the loop.  If it
    is set after the tracker has finished frame K and before the check for
    frame K+1, then for either algorithm the run has exactly
    K - startFrame results, and no result or progress record belongs to a
    frame after K. *)
Theorem C6_cancel_between_frames (env : Env.t) (config : TrackingConfig.t) (K : Z)
  (Hcancel : Env.cancelAt env = Some (K + 1))
  (Hdone : K = TrackingConfig.startFrame config \/
           In K (result_frames (fst (trackObject env config)))) :
  let startFrame := TrackingConfig.startFrame config in
  let items := fst (trackObject env config) in
  Z.of_nat (length (results items)) = K - startFrame /\
  Forall (fun f => f <= K) (result_frames items) /\
  Forall (fun f => f <= K - startFrame) (progress_frames items).
Proof.
  cbv zeta.
  destruct (trackObject_steps env config) as [Hsteps|[e He]].
  - destruct (frame_steps_frames _ _ _ _ _ _ Hsteps) as (k & _ & Hres & _).
    destruct (frame_steps_before_cancel _ _ _ _ _ _ K Hcancel Hsteps)
      as [Hle Hlep].
    split; [|split; assumption].
    assert (Hlen : length (results (fst (trackObject env config))) = k).
    { transitivity (length (result_frames (fst (trackObject env config)))).
      - unfold result_frames. now rewrite length_map.
      - rewrite Hres, length_seqZ. lia. }
    rewrite Hlen. rewrite Hres in Hle, Hdone.
    rewrite Forall_seqZ in Hle.
    assert (Hk : Z.of_nat k <= K - TrackingConfig.startFrame config).
    { destruct k as [|k].
      - destruct Hdone as [->|Hin]; [lia|].
        rewrite seqZ_nil in Hin by lia. destruct Hin.
      - specialize (Hle (TrackingConfig.startFrame config + Z.of_nat (S k))).
        lia. }
    destruct Hdone as [HK|Hin]; [lia|].
    apply list_elem_of_In, elem_of_seqZ in Hin. lia.
  - rewrite He in *. cbn in *.
    destruct Hdone as [->|[]]. repeat split; try constructor. lia.
Qed.

Lemma C6_cancel_between_frames_witness :
  let env := Fixture.cancelledAt 13 in
  let config := Fixture.config OpticalFlow 20 in
  Z.of_nat (length (results (fst (trackObject env config)))) = 12 - 10 /\
  Forall (fun f => f <= 12) (result_frames (fst (trackObject env config))) /\
  Forall (fun f => f <= 12 - 10) (progress_frames (fst (trackObject env config))).
Proof.
  apply (C6_cancel_between_frames (Fixture.cancelledAt 13)
           (Fixture.config OpticalFlow 20) 12).
  - reflexivity.
  - right. vm_compute. right. left. reflexivity.
Defined.

(** ** The match centre stays inside the video *)

Lemma results_yield_progress p k : results (fst (yield (Progress p) k)) = results (fst k).
Proof. reflexivity. Qed.

Lemma results_yield_result r k :
  results (fst (yield (Result r) k)) = r :: results (fst k).
Proof. reflexivity. Qed.

Lemma center_in_box (a size extent : Z) :
  0 <= a -> a + size <= extent ->
  center_in size extent (inject_Z a + inject_Z size / 2)%Q.
Proof.
  intros Ha Hb. unfold center_in.
  rewrite Zle_Qle in Ha, Hb. rewrite inject_Z_plus in Hb.
  change (inject_Z 0) with 0%Q in Ha.
  assert (Hhalf : (inject_Z size == inject_Z size / 2 + inject_Z size / 2)%Q)
    by field.
  set (half := (inject_Z size / 2)%Q) in *. split; lra.
Qed.

Lemma roiRect_center_in config :
  center_in (Rect.width (roiRect config))
    (Video.videoWidth (TrackingConfig.video config))
    (inject_Z (Rect.x (roiRect config))
     + inject_Z (Rect.width (roiRect config)) / 2)%Q /\
  center_in (Rect.height (roiRect config))
    (Video.videoHeight (TrackingConfig.video config))
    (inject_Z (Rect.y (roiRect config))
     + inject_Z (Rect.height (roiRect config)) / 2)%Q.
Proof.
  split; apply center_in_box; unfold roiRect;
    cbn [Rect.x Rect.y Rect.width Rect.height];
    first [apply clamp_lower | lia].
Qed.

Lemma searchRect_inside config tw th cx cy :
  let sr := searchRect config tw th cx cy in
  0 <= Rect.x sr /\ 0 <= Rect.y sr /\
  Rect.x sr + Rect.width sr <= Video.videoWidth (TrackingConfig.video config) /\
  Rect.y sr + Rect.height sr <= Video.videoHeight (TrackingConfig.video config).
Proof.
  unfold searchRect; cbn [Rect.x Rect.y Rect.width Rect.height].
  repeat split; first [apply clamp_lower | lia].
Qed.

Lemma templateMatch_loop_in_bounds env config template
  (Hcv : matchTemplate_in_result env) (n : nat) :
  forall (f : Z) (t cx cy : Q),
    center_in (Mat.cols template)
      (Video.videoWidth (TrackingConfig.video config)) cx ->
    center_in (Mat.rows template)
      (Video.videoHeight (TrackingConfig.video config)) cy ->
    Forall (result_in_bounds config (Mat.cols template) (Mat.rows template))
      (results (fst (templateMatch_loop env config template n f t cx cy))).
Proof.
  induction n as [|n IH]; intros f t cx cy Hx Hy; cbn [templateMatch_loop].
  - constructor.
  - destruct (signal_aborted env f); [constructor|].
    rewrite results_yield_progress.
    destruct (sampleFrame env f t) as [e|[frameGray t']]; [constructor|].
    set (sr := searchRect config (Mat.cols template) (Mat.rows template) cx cy).
    destruct (searchRect_inside config (Mat.cols template) (Mat.rows template)
                cx cy) as (Hx0 & Hy0 & HxW & HyH).
    fold sr in Hx0, Hy0, HxW, HyH.
    destruct ((Rect.width sr <? Mat.cols template)
              || (Rect.height sr <? Mat.rows template)) eqn:Hfit.
    + rewrite results_yield_result. constructor; [split; assumption|constructor].
    + apply orb_false_elim in Hfit as [Hw Hh].
      apply Z.ltb_ge in Hw, Hh.
      destruct (Hcv (Mat.roi frameGray sr) template) as [Hmx Hmy];
        [exact Hw|exact Hh|].
      cbn [Mat.roi Mat.cols Mat.rows] in Hmx, Hmy.
      set (minMax := Env.matchTemplate env (Mat.roi frameGray sr) template) in *.
      assert (Hx' : center_in (Mat.cols template)
                      (Video.videoWidth (TrackingConfig.video config))
                      (inject_Z (Rect.x sr + MinMaxLoc.maxLoc_x minMax)
                       + inject_Z (Mat.cols template) / 2)%Q)
        by (apply center_in_box; lia).
      assert (Hy' : center_in (Mat.rows template)
                      (Video.videoHeight (TrackingConfig.video config))
                      (inject_Z (Rect.y sr + MinMaxLoc.maxLoc_y minMax)
                       + inject_Z (Mat.rows template) / 2)%Q)
        by (apply center_in_box; lia).
      rewrite results_yield_result.
      constructor; [split; assumption|]. apply IH; assumption.
Qed.

(** C9: every result of the template-match tracker has its x inside
    [templateW/2, videoWidth - templateW/2] and its y inside
    [templateH/2, videoHeight - templateH/2], templateW x templateH being
    the clamped ROI size, provided OpenCV reports the correlation peak
    inside the result matrix. *)
Theorem C9_match_center_in_bounds (env : Env.t) (config : TrackingConfig.t)
  (Hcv : matchTemplate_in_result env) :
  Forall (result_in_bounds config (Rect.width (roiRect config))
            (Rect.height (roiRect config)))
    (results (fst (templateMatchTrack env config))).
Proof.
  unfold templateMatchTrack.
  destruct (sampleFrame env _ _) as [e|[startGray t']]; [constructor|].
  destruct (roiRect_center_in config) as [Hx Hy].
  apply (templateMatch_loop_in_bounds env config
           (Mat.roi startGray (roiRect config)) Hcv); assumption.
Qed.

Lemma C9_match_center_in_bounds_witness :
  Forall (result_in_bounds (Fixture.config Template 20) 40 40)
    (results (fst (templateMatchTrack Fixture.env (Fixture.config Template 20)))).
Proof.
  apply (C9_match_center_in_bounds Fixture.env (Fixture.config Template 20)).
  intros image templ Hc Hr. cbn. lia.
Defined.

(** ** Tracking lost in the template-match tracker *)

(** C4: when the clamped search window is narrower or lower than the
    template, the iteration yields its progress record and one result with
    confidence 0 at the match centre it started from, and the generator
    returns (it does not throw).  When that iteration is the first one of
    the run, the whole run is that progress record and that single
    zero-confidence result. *)
Theorem C4_template_cannot_fit (env : Env.t) (config : TrackingConfig.t)
  (template : Mat.t) (n : nat) (frameNum : Z) (t cx cy : Q)
  (frameGray : Mat.t) (t' : Q)
  (Hgo : signal_aborted env frameNum = false)
  (Hsample : sampleFrame env frameNum t = inr (frameGray, t'))
  (Hnofit :
     let sr := searchRect config (Mat.cols template) (Mat.rows template) cx cy in
     Rect.width sr < Mat.cols template \/ Rect.height sr < Mat.rows template) :
  let lost : Run :=
    ([Progress {| TrackingProgress.frame :=
                    frameNum - TrackingConfig.startFrame config;
                  TrackingProgress.total :=
                    TrackingConfig.endFrame config
                    - TrackingConfig.startFrame config |};
      Result {| TrackingResult.frameNumber := frameNum;
                TrackingResult.x := cx; TrackingResult.y := cy;
                TrackingResult.confidence := 0 |}], Returned) in
  templateMatch_loop env config template (S n) frameNum t cx cy = lost /\
  (forall startGray : Mat.t,
      sampleFrame env (TrackingConfig.startFrame config)
        (Video.currentTime (TrackingConfig.video config)) = inr (startGray, t) ->
      iterations config = S n ->
      frameNum = TrackingConfig.startFrame config + 1 ->
      template = Mat.roi startGray (roiRect config) ->
      cx = (inject_Z (Rect.x (roiRect config))
            + inject_Z (Rect.width (roiRect config)) / 2)%Q ->
      cy = (inject_Z (Rect.y (roiRect config))
            + inject_Z (Rect.height (roiRect config)) / 2)%Q ->
      templateMatchTrack env config = lost /\
      results (fst (templateMatchTrack env config)) =
        [{| TrackingResult.frameNumber := TrackingConfig.startFrame config + 1;
            TrackingResult.x := cx; TrackingResult.y := cy;
            TrackingResult.confidence := 0 |}]).
Proof.
  cbv zeta in *.
  assert (Hloop :
    templateMatch_loop env config template (S n) frameNum t cx cy =
    ([Progress {| TrackingProgress.frame :=
                    frameNum - TrackingConfig.startFrame config;
                  TrackingProgress.total :=
                    TrackingConfig.endFrame config
                    - TrackingConfig.startFrame config |};
      Result {| TrackingResult.frameNumber := frameNum;
                TrackingResult.x := cx; TrackingResult.y := cy;
                TrackingResult.confidence := 0 |}], Returned)).
  { cbn [templateMatch_loop]. rewrite Hgo, Hsample.
    assert (Hc : (Rect.width (searchRect config (Mat.cols template)
                                (Mat.rows template) cx cy) <? Mat.cols template)
                 || (Rect.height (searchRect config (Mat.cols template)
                                    (Mat.rows template) cx cy) <? Mat.rows template)
                 = true).
    { apply orb_true_iff. destruct Hnofit as [H|H]; [left|right];
        now apply Z.ltb_lt. }
    rewrite Hc. reflexivity. }
  split; [exact Hloop|].
  intros startGray Hstart Hiter Hframe Htemplate Hcx Hcy.
  assert (Hrun : templateMatchTrack env config =
                 templateMatch_loop env config template (S n) frameNum t cx cy).
  { unfold templateMatchTrack. rewrite Hstart, Hiter.
    cbv zeta. now rewrite <- Htemplate, <- Hcx, <- Hcy, <- Hframe. }
  rewrite Hrun, Hloop. split; [reflexivity|]. now rewrite Hframe.
Qed.

Lemma C4_template_cannot_fit_witness :
  templateMatchTrack Fixture.env (Fixture.config Template (-1)) =
    ([Progress {| TrackingProgress.frame := 1; TrackingProgress.total := 5 |};
      Result {| TrackingResult.frameNumber := 11;
                TrackingResult.x := (inject_Z 100 + inject_Z 40 / 2)%Q;
                TrackingResult.y := (inject_Z 50 + inject_Z 40 / 2)%Q;
                TrackingResult.confidence := 0 |}], Returned).
Proof.
  refine (proj1 (proj2 (C4_template_cannot_fit Fixture.env
            (Fixture.config Template (-1))
            (Mat.roi Fixture.blank (roiRect (Fixture.config Template (-1))))
            4 11 (inject_Z 10 / 30)%Q
            (inject_Z 100 + inject_Z 40 / 2)%Q (inject_Z 50 + inject_Z 40 / 2)%Q
            Fixture.blank (inject_Z 11 / 30)%Q _ _ _)
          Fixture.blank _ _ _ _ _ _)).
  - reflexivity.
  - reflexivity.
  - left. reflexivity.
  - reflexivity.
  - reflexivity.
  - reflexivity.
  - reflexivity.
  - reflexivity.
  - reflexivity.
Defined.

(** ** Confidence in the optical-flow tracker *)

Lemma opticalFlow_loop_confidence env config n :
  forall (f : Z) (t : Q) (prevGray : Mat.t) (prevPts : Q * Q),
    let run := opticalFlow_loop env config n f t prevGray prevPts in
    Forall (fun r => TrackingResult.confidence r = 0%Q \/
                     TrackingResult.confidence r = 1%Q) (results (fst run)) /\
    (forall (i : nat) (r : TrackingResult.t),
        fst run !! i = Some (Result r) ->
        TrackingResult.confidence r = 0%Q ->
        length (fst run) = S i /\ snd run = Threw MatAlreadyDeleted).
Proof.
  induction n as [|n IH]; intros f t prevGray prevPts;
    cbn [opticalFlow_loop]; cbv zeta.
  - split; [constructor|]. intros i r Hi. destruct i; discriminate.
  - destruct (signal_aborted env f).
    { split; [constructor|]. intros i r Hi. destruct i; discriminate. }
    destruct (sampleFrame env f t) as [e|[currGray t']].
    { split; [constructor|]. intros [|[|i]] r Hi; discriminate. }
    destruct (Env.calcOpticalFlowPyrLK env prevGray currGray prevPts)
      as [status nextPts].
    destruct (status =? 1).
    + destruct (IH (f + 1) t' currGray nextPts) as [IHc IHl]. split.
      * rewrite results_yield_progress, results_yield_result.
        constructor; [right; reflexivity|exact IHc].
      * intros [|[|i]] r Hi Hr; cbn in Hi.
        -- discriminate.
        -- injection Hi as <-. discriminate.
        -- destruct (IHl i r Hi Hr) as [Hlen Hend].
           split; [cbn; now rewrite Hlen|exact Hend].
    + split.
      * constructor; [left; reflexivity|constructor].
      * intros [|[|[|i]]] r Hi Hr; try discriminate. split; reflexivity.
Qed.

Lemma opticalFlowTrack_confidence env config :
  let run := opticalFlowTrack env config in
  Forall (fun r => TrackingResult.confidence r = 0%Q \/
                   TrackingResult.confidence r = 1%Q) (results (fst run)) /\
  (forall (i : nat) (r : TrackingResult.t),
      fst run !! i = Some (Result r) ->
      TrackingResult.confidence r = 0%Q ->
      length (fst run) = S i /\ snd run = Threw MatAlreadyDeleted).
Proof.
  cbv zeta. unfold opticalFlowTrack.
  destruct (sampleFrame env (TrackingConfig.startFrame config) _)
    as [e|[g t0]].
  - split; [constructor|]. intros i r Hi. destruct i; discriminate.
  - apply opticalFlow_loop_confidence.
Qed.






Lemma seekToFrame_seeked currentTime time :
  exists t', seekToFrame EvSeeked currentTime time = inr t'.
Proof.
  unfold seekToFrame, seek_start.
  destruct (Qlt_le_dec (Qabs (currentTime - time)) (1 # 1000)); cbn; eauto.
Qed.

Lemma sampleFrame_succeeds env (Hs : sampling_succeeds env) f t :
  exists t', sampleFrame env f t = inr (Env.frameGray env f, t').
Proof.
  unfold sampleFrame. destruct (Hs f) as [-> ->].
  destruct (seekToFrame_seeked t (Env.getFrameStart env f)) as [t' ->]. eauto.
Qed.





(** ** The frame sampler *)

(** C7: when the video is within a millisecond of the target,
    [seekToFrame] resolves at once: the position is not written, no
    listener is attached and no timer is armed.  Otherwise it writes the
    position, listens for ['seeked'] and arms a 5000 ms timer; the promise
    resolves if ['seeked'] comes first and is rejected with the time-out
    error if the timer fires first. *)
Theorem C7_seekToFrame (currentTime time : Q) :
  ((Qabs (currentTime - time) < 1 # 1000)%Q ->
   seek_start currentTime time =
     {| Seek.currentTime := currentTime; Seek.seekRequested := false;
        Seek.listening := false; Seek.timer := None;
        Seek.promise := Resolved |} /\
   forall ev, seekToFrame ev currentTime time = inr currentTime) /\
  (~ (Qabs (currentTime - time) < 1 # 1000)%Q ->
   seek_start currentTime time =
     {| Seek.currentTime := time; Seek.seekRequested := true;
        Seek.listening := true; Seek.timer := Some 5000;
        Seek.promise := Pending |} /\
   seek_event time EvSeeked (seek_start currentTime time) =
     {| Seek.currentTime := time; Seek.seekRequested := true;
        Seek.listening := false; Seek.timer := None;
        Seek.promise := Resolved |} /\
   seek_event time EvTimerFired (seek_start currentTime time) =
     {| Seek.currentTime := time; Seek.seekRequested := true;
        Seek.listening := false; Seek.timer := None;
        Seek.promise := Rejected (SeekTimedOut time) |} /\
   seekToFrame EvSeeked currentTime time = inr time /\
   seekToFrame EvTimerFired currentTime time = inl (SeekTimedOut time)).
Proof.
  split; intros H; unfold seekToFrame, seek_start;
    destruct (Qlt_le_dec (Qabs (currentTime - time)) (1 # 1000)) as [Hlt|Hge].
  - split; [reflexivity|]. intros ev. reflexivity.
  - exfalso. apply (Qlt_not_le _ _ H Hge).
  - contradiction.
  - repeat split.
Qed.

Lemma C7_seekToFrame_witness :
  (forall ev, seekToFrame ev (1 # 3) (3334 # 10000) = inr (1 # 3)%Q) /\
  seekToFrame EvSeeked 0 (1 # 3) = inr (1 # 3)%Q /\
  seekToFrame EvTimerFired 0 (1 # 3) = inl (SeekTimedOut (1 # 3)).
Proof.
  split; [|split].
  - refine (proj2 (proj1 (C7_seekToFrame (1 # 3) (3334 # 10000)) _)).
    reflexivity.
  - refine (proj1 (proj2 (proj2 (proj2
              (proj2 (C7_seekToFrame 0 (1 # 3)) _))))).
    intros H. discriminate H.
  - refine (proj2 (proj2 (proj2 (proj2
              (proj2 (C7_seekToFrame 0 (1 # 3)) _))))).
    intros H. discriminate H.
Defined.

(** ** Validation of the submitted configuration *)

Lemma alertModal_frame m w :
  World.hasTrack (alertModal m w) = World.hasTrack w /\
  World.track (alertModal m w) = World.track w /\
  World.timeline (alertModal m w) = World.timeline w /\
  World.history (alertModal m w) = World.history w /\
  World.allocated (alertModal m w) = World.allocated w /\
  World.currentROI (alertModal m w) = World.currentROI w /\
  Ui.modalVisible (World.ui (alertModal m w)) = Ui.modalVisible (World.ui w) /\
  Ui.roiShape (World.ui (alertModal m w)) = Ui.roiShape (World.ui w) /\
  Ui.detachedVideos (World.ui (alertModal m w))
    = Ui.detachedVideos (World.ui w) /\
  Ui.alerts (World.ui (alertModal m w)) = Ui.alerts (World.ui w) ++ [m].
Proof. repeat split. Qed.

Lemma runSession_outcome senv alg roi s e m w :
  snd (runSession senv alg roi s e m w) = LoadFailed \/
  snd (runSession senv alg roi s e m w) = Completed.
Proof.
  unfold runSession. destruct (negb (SessionEnv.videoLoads senv)); auto.
Qed.

(** C8: the three fields are accepted exactly when all of them parse, the
    end frame exceeds the start frame and both lie in [0, frameCount]
    (which is what the three checks of the code amount to).  A rejected
    submission only shows its message: tracking is not started, the track,
    the timeline and the undo history are untouched, and the modal stays
    open on the selected region. *)
Theorem C8_validation (data : ModalExportData.t) (frameCount : Z) :
  (forall s e m : Z,
      validate data frameCount = Accept s e m <->
      parseInt (ModalExportData.startFrame data) = Some s /\
      parseInt (ModalExportData.endFrame data) = Some e /\
      parseInt (ModalExportData.searchMargin data) = Some m /\
      s < e /\ 0 <= s <= frameCount /\ 0 <= e <= frameCount) /\
  (forall (senv : SessionEnv.t) (w : World.t) (currentROI : ROI.t)
          (algorithm : Algorithm),
      World.currentROI w = Some currentROI ->
      World.hasTrack w = true ->
      parseAlgorithm (ModalExportData.algorithm data) = Some algorithm ->
      Timeline.frameCount (World.timeline w) = frameCount ->
      (forall msg : Message,
          validate data frameCount = Reject msg ->
          let w' := fst (submit senv (Some data) w) in
          submit senv (Some data) w = (alertModal msg w, Invalid) /\
          World.track w' = World.track w /\
          World.timeline w' = World.timeline w /\
          World.history w' = World.history w /\
          World.allocated w' = World.allocated w /\
          World.currentROI w' = World.currentROI w /\
          Ui.modalVisible (World.ui w') = Ui.modalVisible (World.ui w) /\
          Ui.detachedVideos (World.ui w') = Ui.detachedVideos (World.ui w) /\
          Ui.alerts (World.ui w') = Ui.alerts (World.ui w) ++ [msg]) /\
      (forall s e m : Z,
          validate data frameCount = Accept s e m ->
          snd (submit senv (Some data) w) <> Invalid)).
Proof.
  split.
  - intros s e m. unfold validate.
    destruct (parseInt (ModalExportData.startFrame data)) as [s'|];
      [|split; [discriminate|intros (H & _); discriminate]].
    destruct (parseInt (ModalExportData.endFrame data)) as [e'|];
      [|split; [discriminate|intros (_ & H & _); discriminate]].
    destruct (parseInt (ModalExportData.searchMargin data)) as [m'|];
      [|split; [discriminate|intros (_ & _ & H & _); discriminate]].
    destruct (s' >=? e') eqn:Hse.
    { split; [discriminate|]. intros (Hs & He & _ & Hlt & _).
      injection Hs as ->. injection He as ->. lia. }
    destruct ((s' <? 0) || (e' >? frameCount)) eqn:Hrange.
    { split; [discriminate|]. intros (Hs & He & _ & _ & Hs0 & He0).
      injection Hs as ->. injection He as ->.
      apply orb_true_iff in Hrange as [H|H]; lia. }
    apply orb_false_elim in Hrange as [H0 Hfc].
    split.
    + intros H. injection H as <- <- <-. repeat split; lia.
    + intros (Hs & He & Hm & _). congruence.
  - intros senv w currentROI algorithm Hroi Htrack Halg Hfc. split.
    + intros msg Hrej. cbv zeta. unfold submit.
      rewrite Hroi, Htrack, Halg, Hfc, Hrej.
      cbn [fst]. split; [reflexivity|]. repeat split. exact Hroi.
    + intros s e m Hacc. unfold submit.
      rewrite Hroi, Htrack, Halg, Hfc, Hacc.
      destruct (0 <? countExisting _ _ _)%nat.
      * destruct (SessionEnv.confirmOverwrite senv); [|discriminate].
        destruct (runSession_outcome senv algorithm currentROI s e m
                    (alertModal (MsgOverwrite
                       (countExisting (Track.points (World.track w)) s e)) w))
          as [H|H]; rewrite H; discriminate.
      * destruct (runSession_outcome senv algorithm currentROI s e m w)
          as [H|H]; rewrite H; discriminate.
Qed.

Lemma C8_validation_witness :
  validate (Fixture.data "template" "15" "10" "20") 20 = Reject MsgEndGreater /\
  submit (Fixture.senv Fixture.env)
    (Some (Fixture.data "template" "15" "10" "20")) (Fixture.world ∅)
  = (alertModal MsgEndGreater (Fixture.world ∅), Invalid).
Proof.
  split; [reflexivity|].
  refine (proj1 (proj1 (proj2 (C8_validation
            (Fixture.data "template" "15" "10" "20") 20)
            (Fixture.senv Fixture.env) (Fixture.world ∅) Fixture.roi Template
            _ _ _ _) MsgEndGreater _)); reflexivity.
Defined.

(** ** The consumption loop *)

Lemma consume_results s items acc text :
  Consumed.results (consume s items acc text)
  = acc ++ accepted_prefix (results items).
Proof.
  revert acc text. induction items as [|[p|r] items IH]; intros acc text.
  - cbn. now rewrite app_nil_r.
  - cbn [consume]. rewrite IH. reflexivity.
  - cbn [consume]. change (results (Result r :: items)) with (r :: results items).
    cbn [accepted_prefix].
    destruct (Qlt_le_dec (TrackingResult.confidence r) confidenceThreshold).
    + cbn. now rewrite app_nil_r.
    + rewrite IH, <- app_assoc. reflexivity.
Qed.

Lemma consume_broke s items acc text :
  Consumed.broke (consume s items acc text) = true <->
  Exists (fun r => (TrackingResult.confidence r < confidenceThreshold)%Q)
    (results items).
Proof.
  revert acc text. induction items as [|[p|r] items IH]; intros acc text.
  - cbn. split; [discriminate|]. intros H. inversion H.
  - cbn [consume]. rewrite IH. reflexivity.
  - cbn [consume]. change (results (Result r :: items)) with (r :: results items).
    destruct (Qlt_le_dec (TrackingResult.confidence r) confidenceThreshold)
      as [Hlt|Hge].
    + cbn. split; [intros _; now constructor|reflexivity].
    + rewrite IH. split; [now constructor 2|].
      intros H. inversion H as [? ? Hr|? ? Hrest]; subst; [|exact Hrest].
      exfalso. apply (Qlt_not_le _ _ Hr Hge).
Qed.

Lemma accepted_prefix_split (rs : list TrackingResult.t) :
  exists rest : list TrackingResult.t,
    rs = accepted_prefix rs ++ rest /\
    Forall (fun r => (confidenceThreshold <= TrackingResult.confidence r)%Q)
      (accepted_prefix rs) /\
    (rest = [] \/
     exists r rest', rest = r :: rest' /\
       (TrackingResult.confidence r < confidenceThreshold)%Q).
Proof.
  induction rs as [|r rs (rest & Heq & Hall & Hrest)]; cbn [accepted_prefix].
  - exists []. repeat split; [constructor|now left].
  - destruct (Qlt_le_dec (TrackingResult.confidence r) confidenceThreshold)
      as [Hlt|Hge].
    + exists (r :: rs). repeat split; [constructor|right; eauto].
    + exists rest. split; [cbn; now f_equal|]. split; [now constructor|exact Hrest].
Qed.

(** ** The commit phase *)

Lemma track_keyed_insert points id r :
  track_keyed points ->
  track_keyed (<[TrackingResult.frameNumber r := pointOf id r]> points).
Proof.
  intros Hk f p. rewrite lookup_insert. case_decide as Hf.
  - intros [= <-]. now subst f.
  - apply Hk.
Qed.

Lemma commit_result_spec pointExport st r :
  Timeline.frames (Commit.timeline st) !! TrackingResult.frameNumber r
    = Some {| Frame.number := TrackingResult.frameNumber r |} ->
  track_keyed (Track.points (Commit.track st)) ->
  let st' := commit_result pointExport st r in
  Timeline.frames (Commit.timeline st') = Timeline.frames (Commit.timeline st) /\
  Track.points (Commit.track st')
    = <[TrackingResult.frameNumber r := pointOf (Commit.allocated st) r]>
        (Track.points (Commit.track st)) /\
  Commit.allocated st' = S (Commit.allocated st) /\
  Commit.addedPoints st'
    = Commit.addedPoints st ++ [pointOf (Commit.allocated st) r].
Proof.
  intros Hframe Hkeyed. cbv zeta. unfold commit_result. rewrite Hframe.
  cbn [Frame.number].
  destruct (Track.points (Commit.track st) !! TrackingResult.frameNumber r)
    as [existing|] eqn:Hex.
  - apply Hkeyed in Hex as Hnum.
    unfold Point_remove. rewrite Hnum. cbn.
    repeat split. apply insert_delete_eq.
  - cbn. repeat split.
Qed.

Lemma commit_results_spec pointExport (rs : list TrackingResult.t) :
  forall st : Commit.t,
    timeline_has (Commit.timeline st) rs ->
    track_keyed (Track.points (Commit.track st)) ->
    let st' := fold_left (commit_result pointExport) rs st in
    Track.points (Commit.track st')
      = insert_results (Commit.allocated st) rs (Track.points (Commit.track st)) /\
    Commit.allocated st' = (Commit.allocated st + length rs)%nat /\
    Commit.addedPoints st'
      = Commit.addedPoints st ++ pointsOf (Commit.allocated st) rs.
Proof.
  induction rs as [|r rs IH]; intros st Hhas Hkeyed; cbv zeta.
  - cbn. rewrite app_nil_r. repeat split. lia.
  - cbn [fold_left insert_results pointsOf length].
    destruct (commit_result_spec pointExport st r) as (Hfr & Hpts & Hal & Hadd);
      [apply Hhas; now left|exact Hkeyed|].
    destruct (IH (commit_result pointExport st r)) as (IHp & IHa & IHadd).
    + intros r' Hr'. rewrite Hfr. apply Hhas. now right.
    + rewrite Hpts. now apply track_keyed_insert.
    + rewrite IHp, IHa, IHadd, Hpts, Hal, Hadd, <- app_assoc.
      repeat split. lia.
Qed.

Lemma insert_results_lookup_other (rs : list TrackingResult.t) :
  forall (id : nat) (points : gmap Z Point.t) (f : Z),
    ~ In f (map TrackingResult.frameNumber rs) ->
    insert_results id rs points !! f = points !! f.
Proof.
  induction rs as [|r rs IH]; intros id points f Hf; cbn [insert_results].
  - reflexivity.
  - rewrite IH by (intros H; apply Hf; now right).
    apply lookup_insert_ne. intros Heq. apply Hf. now left.
Qed.

Lemma insert_results_lookup_in (rs : list TrackingResult.t) :
  forall (id : nat) (points : gmap Z Point.t) (r : TrackingResult.t),
    NoDup (map TrackingResult.frameNumber rs) ->
    In r rs ->
    exists id', insert_results id rs points !! TrackingResult.frameNumber r
                = Some (pointOf id' r).
Proof.
  induction rs as [|r0 rs IH]; intros id points r Hnd Hin; [destruct Hin|].
  cbn [insert_results]. cbn [map] in Hnd.
  apply NoDup_cons in Hnd as [Hnotin Hnd'].
  rewrite list_elem_of_In in Hnotin.
  destruct Hin as [->|Hin].
  - exists id. rewrite insert_results_lookup_other by exact Hnotin.
    apply lookup_insert_eq.
  - now apply IH.
Qed.

(** ** A session from start to cleanup *)

(** What a completed session leaves behind, in terms of its commit phase. *)
Lemma runSession_completed senv alg roi s e m w :
  SessionEnv.videoLoads senv = true ->
  let config := sessionConfig senv alg roi s e m in
  let accepted := Consumed.results (consumeRun senv config (Ui.modalText (World.ui w))) in
  let committed := commitPhase senv accepted w in
  let w' := fst (runSession senv alg roi s e m w) in
  snd (runSession senv alg roi s e m w) = Completed /\
  World.track w' = World.track committed /\
  Timeline.frames (World.timeline w') = Timeline.frames (World.timeline committed) /\
  Timeline.frameCount (World.timeline w')
    = Timeline.frameCount (World.timeline committed) /\
  Timeline.activeFrames (World.timeline w')
    = Timeline.activeFrames (World.timeline committed) /\
  Timeline.framePoints (World.timeline w')
    = Timeline.framePoints (World.timeline committed) /\
  Timeline.currentFrame (World.timeline w')
    = Timeline.currentFrame (World.timeline w) /\
  World.history w' = World.history committed /\
  World.allocated w' = World.allocated committed /\
  World.hasTrack w' = World.hasTrack w /\
  World.currentROI w' = None /\
  Ui.modalVisible (World.ui w') = false /\
  Ui.modalText (World.ui w') = [] /\
  Ui.submitDisabled (World.ui w') = false /\
  Ui.submitLabel (World.ui w') = LabelTrack /\
  Ui.roiShape (World.ui w') = false /\
  Ui.detachedVideos (World.ui w') = Ui.detachedVideos (World.ui w).
Proof.
  intros Hload. cbv zeta. unfold runSession. rewrite Hload. cbn [negb].
  cbv zeta.
  set (config := sessionConfig senv alg roi s e m).
  set (c := consumeRun senv config _).
  change (consumeRun senv config (Ui.modalText (World.ui w))) with c.
  destruct (Consumed.results c) as [|r rs] eqn:Hres;
    destruct (streamError (trackObject (SessionEnv.engine senv) config));
    destruct (cancelPressed senv);
    cbn; repeat split.
Qed.

(** The loop ends without an accepted result exactly when the tracker
    yielded no result at all (cancelled or failed before the first one) or
    its first result is below the threshold. *)
Lemma no_accepted_result_iff senv config text :
  Consumed.results (consumeRun senv config text) = [] <->
  match results (fst (trackObject (SessionEnv.engine senv) config)) with
  | [] => True
  | r :: _ => (TrackingResult.confidence r < confidenceThreshold)%Q
  end.
Proof.
  unfold consumeRun. rewrite consume_results. cbn [app].
  destruct (results _) as [|r rs]; cbn [accepted_prefix]; [tauto|].
  destruct (Qlt_le_dec (TrackingResult.confidence r) confidenceThreshold)
    as [Hlt|Hge]; [tauto|].
  split; [discriminate|]. intros Hlt. exfalso. apply (Qlt_not_le _ _ Hlt Hge).
Qed.

(** C10: when the consumption loop ends without an accepted result, the
    commit phase does nothing: the track (points and table), the timeline
    (frame point lists, active frames), the undo history and the number of
    points ever built are as before; and the cleanup has run: the playhead
    is where it was, the detached video is gone, the submit button is back,
    the modal is hidden and emptied, and the ROI overlay and selection are
    removed. *)
Theorem C10_no_results_no_commit (senv : SessionEnv.t) (alg : Algorithm)
  (roi : ROI.t) (s e m : Z) (w : World.t)
  (Hload : SessionEnv.videoLoads senv = true)
  (Hzero : Consumed.results
             (consumeRun senv (sessionConfig senv alg roi s e m)
                (Ui.modalText (World.ui w))) = []) :
  let w' := fst (runSession senv alg roi s e m w) in
  snd (runSession senv alg roi s e m w) = Completed /\
  World.track w' = World.track w /\
  World.timeline w' = World.timeline w /\
  World.history w' = World.history w /\
  World.allocated w' = World.allocated w /\
  World.currentROI w' = None /\
  Ui.modalVisible (World.ui w') = false /\
  Ui.modalText (World.ui w') = [] /\
  Ui.submitDisabled (World.ui w') = false /\
  Ui.submitLabel (World.ui w') = LabelTrack /\
  Ui.roiShape (World.ui w') = false /\
  Ui.detachedVideos (World.ui w') = Ui.detachedVideos (World.ui w).
Proof.
  cbv zeta.
  destruct (runSession_completed senv alg roi s e m w Hload)
    as (Hout & Htr & Hfr & Hfc & Haf & Hfp & Hcf & Hh & Hal & _ & Hroi & Hui).
  rewrite Hzero in Htr, Hfr, Hfc, Haf, Hfp, Hh, Hal. cbn [commitPhase] in *.
  split; [exact Hout|]. split; [exact Htr|]. split.
  { destruct (World.timeline (fst (runSession senv alg roi s e m w))),
      (World.timeline w). cbn in *. congruence. }
  split; [exact Hh|]. split; [exact Hal|]. split; [exact Hroi|]. exact Hui.
Qed.

Lemma C10_no_results_no_commit_witness :
  let senv := Fixture.senv (Fixture.cancelledAt 11) in
  let w := Fixture.world {[ 11 := Fixture.oldPoint ]} in
  let w' := fst (runSession senv Template Fixture.roi 10 15 20 w) in
  World.track w' = World.track w /\
  World.history w' = World.history w /\
  Ui.modalVisible (World.ui w') = false /\
  Ui.detachedVideos (World.ui w') = 0%nat.
Proof.
  pose proof (C10_no_results_no_commit (Fixture.senv (Fixture.cancelledAt 11))
                Template Fixture.roi 10 15 20
                (Fixture.world {[ 11 := Fixture.oldPoint ]})
                eq_refl eq_refl) as H.
  cbv zeta in *. repeat split; apply H.
Defined.

Lemma commitPhase_points senv (rs : list TrackingResult.t) (w : World.t) :
  timeline_has (World.timeline w) rs ->
  track_keyed (Track.points (World.track w)) ->
  Track.points (World.track (commitPhase senv rs w))
    = insert_results (World.allocated w) rs (Track.points (World.track w)) /\
  (rs <> [] ->
   World.history (commitPhase senv rs w)
     = CompoundAction (pointsOf (World.allocated w) rs) :: World.history w).
Proof.
  intros Hhas Hkeyed. destruct rs as [|r rs]; [split; [reflexivity|congruence]|].
  unfold commitPhase, commit_results.
  destruct (commit_results_spec (SessionEnv.pointExport senv) (r :: rs)
              {| Commit.track := World.track w;
                 Commit.timeline := World.timeline w;
                 Commit.allocated := World.allocated w;
                 Commit.addedPoints := [] |} Hhas Hkeyed) as (Hp & _ & Hadd).
  cbv zeta in Hp, Hadd. cbn [World.track World.history].
  split; [exact Hp|]. intros _. now rewrite Hadd.
Qed.

(** C3: the consumption loop keeps the results yielded before the first
    one whose confidence is below 0.5, all of which have confidence at
    least 0.5, and stops there; whatever ended the run (a low confidence,
    cancellation, an error or the last frame), the session then stores
    exactly one point per kept result under the result's frame number, at
    the result's coordinates, and leaves every other frame of the track as
    it was, the frame of the below-threshold result included.  The timeline
    is taken to hold a frame object for each frame of the range and the
    track to hold its points under their own frame numbers. *)
Theorem C3_accepted_results_committed (senv : SessionEnv.t) (alg : Algorithm)
  (roi : ROI.t) (s e m : Z) (w : World.t)
  (Hload : SessionEnv.videoLoads senv = true)
  (Hframes : timeline_covers (World.timeline w) s e)
  (Hkeyed : track_keyed (Track.points (World.track w))) :
  let config := sessionConfig senv alg roi s e m in
  let yielded := results (fst (trackObject (SessionEnv.engine senv) config)) in
  let accepted :=
    Consumed.results (consumeRun senv config (Ui.modalText (World.ui w))) in
  let w' := fst (runSession senv alg roi s e m w) in
  accepted = accepted_prefix yielded /\
  (exists rest : list TrackingResult.t,
      yielded = accepted ++ rest /\
      Forall (fun r => (1 # 2 <= TrackingResult.confidence r)%Q) accepted /\
      (rest = [] \/
       exists r rest',
         rest = r :: rest' /\ (TrackingResult.confidence r < 1 # 2)%Q /\
         Track.points (World.track w') !! TrackingResult.frameNumber r
           = Track.points (World.track w) !! TrackingResult.frameNumber r)) /\
  snd (runSession senv alg roi s e m w) = Completed /\
  Track.points (World.track w')
    = insert_results (World.allocated w) accepted (Track.points (World.track w)) /\
  (forall r, In r accepted ->
     exists id, Track.points (World.track w') !! TrackingResult.frameNumber r
                = Some (pointOf id r)) /\
  (forall f : Z, ~ In f (map TrackingResult.frameNumber accepted) ->
     Track.points (World.track w') !! f = Track.points (World.track w) !! f).
Proof.
  cbv zeta.
  set (config := sessionConfig senv alg roi s e m).
  set (yielded := results (fst (trackObject (SessionEnv.engine senv) config))).
  set (accepted :=
         Consumed.results (consumeRun senv config (Ui.modalText (World.ui w)))).
  assert (Hacc : accepted = accepted_prefix yielded).
  { unfold accepted, consumeRun. now rewrite consume_results. }
  destruct (accepted_prefix_split yielded) as (rest & Hsplit & Hall & Hrest).
  rewrite <- Hacc in Hsplit, Hall.
  destruct (trackObject_frames_in_order (SessionEnv.engine senv) config)
    as (k & _ & Hseq & _ & _ & Hrange & _).
  cbv zeta in Hseq, Hrange. unfold result_frames in Hseq, Hrange.
  fold yielded in Hseq, Hrange.
  assert (Hnd : NoDup (map TrackingResult.frameNumber yielded))
    by (rewrite Hseq; apply NoDup_seqZ).
  rewrite Hsplit, map_app in Hnd.
  assert (Hnda : NoDup (map TrackingResult.frameNumber accepted))
    by (apply NoDup_app in Hnd; tauto).
  assert (Hhas : timeline_has (World.timeline w) accepted).
  { intros r Hr. apply Hframes.
    rewrite Forall_forall in Hrange.
    apply (Hrange (TrackingResult.frameNumber r)).
    apply list_elem_of_In, in_map. rewrite Hsplit. apply in_or_app. now left. }
  destruct (runSession_completed senv alg roi s e m w Hload)
    as (Hout & Htr & _).
  fold config in Htr. fold accepted in Htr.
  destruct (commitPhase_points senv accepted w Hhas Hkeyed) as [Hpts _].
  rewrite <- Htr in Hpts.
  assert (Hother : forall f : Z,
             ~ In f (map TrackingResult.frameNumber accepted) ->
             Track.points (World.track (fst (runSession senv alg roi s e m w))) !! f
             = Track.points (World.track w) !! f).
  { intros f Hf. rewrite Hpts. now apply insert_results_lookup_other. }
  split; [exact Hacc|]. split.
  { exists rest. split; [exact Hsplit|]. split; [exact Hall|].
    destruct Hrest as [->|(r & rest' & -> & Hlow)]; [now left|right].
    exists r, rest'. split; [reflexivity|]. split; [exact Hlow|].
    apply Hother. intros Hin.
    apply NoDup_app in Hnd as (_ & Hdisj & _).
    apply (Hdisj (TrackingResult.frameNumber r)).
    - now apply list_elem_of_In.
    - cbn. left. }
  split; [exact Hout|]. split; [exact Hpts|]. split; [|exact Hother].
  intros r Hr. rewrite Hpts. now apply insert_results_lookup_in.
Qed.

Lemma C3_accepted_results_committed_witness :
  let senv := Fixture.senv (Fixture.exitsAt 13) in
  let w := Fixture.world {[ 11 := Fixture.oldPoint ]} in
  let w' := fst (runSession senv OpticalFlow Fixture.roi 10 15 20 w) in
  map TrackingResult.frameNumber
    (Consumed.results
       (consumeRun senv (sessionConfig senv OpticalFlow Fixture.roi 10 15 20) []))
    = [11; 12] /\
  snd (runSession senv OpticalFlow Fixture.roi 10 15 20 w) = Completed /\
  Track.points (World.track w') !! 13 = None.
Proof.
  assert (Hframes : timeline_covers Fixture.timeline 10 15).
  { intros f Hf.
    assert (Hcases : f = 11 \/ f = 12 \/ f = 13 \/ f = 14 \/ f = 15) by lia.
    destruct Hcases as [->|[->|[->|[->| ->]]]]; reflexivity. }
  assert (Hkeyed : track_keyed {[ 11 := Fixture.oldPoint ]}).
  { intros f p Hp. apply lookup_singleton_Some in Hp as [<- <-]. reflexivity. }
  destruct (C3_accepted_results_committed (Fixture.senv (Fixture.exitsAt 13))
              OpticalFlow Fixture.roi 10 15 20
              (Fixture.world {[ 11 := Fixture.oldPoint ]})
              eq_refl Hframes Hkeyed) as (_ & _ & Hout & _ & _ & Hother).
  cbv zeta. split; [reflexivity|]. split; [exact Hout|].
  rewrite Hother; [reflexivity|].
  vm_compute. intros [H|[H|[]]]; discriminate H.
Defined.

(** ** Undoing a committed batch *)

(** C1, on a track that already holds a point at frame 11: a run over
    frames 11 and 12 registers one compound action for its two points, and
    redo after undo gives back the committed mapping; but undo leaves frame
    11 empty, where the hand-placed point was before the run. *)
Theorem C1_undo_drops_overwritten_point :
  let w := Fixture.world {[ 11 := Fixture.oldPoint ]} in
  let w' := fst (submit (Fixture.senv Fixture.env)
                   (Some (Fixture.data "template" "10" "12" "20")) w) in
  exists p11 p12 : Point.t,
    World.history w' = [CompoundAction [p11; p12]] /\
    Track.points (World.track w') !! 11 = Some p11 /\
    Track.points (World.track w') !! 12 = Some p12 /\
    let undone := undo (CompoundAction [p11; p12])
                    (World.track w', World.timeline w') in
    Track.points (World.track w) !! 11 = Some Fixture.oldPoint /\
    Track.points (fst undone) !! 11 = None /\
    Track.points (fst undone) !! 12 = None /\
    Track.points (fst (redo (CompoundAction [p11; p12]) undone))
      = Track.points (World.track w').
Proof.
  cbv zeta.
  exists {| Point.id := 1; Point.frame := {| Frame.number := 11 |};
            Point.x := 280 # 2; Point.y := 100 # 2 |},
         {| Point.id := 2; Point.frame := {| Frame.number := 12 |};
            Point.x := 320 # 2; Point.y := 60 # 2 |}.
  repeat split; vm_compute; reflexivity.
Qed.

(** The same holds in general.  Undo empties the frames of the batch, so it
    restores the mapping exactly when the run overwrote nothing; redo after
    undo always gives back the committed mapping. *)

Lemma undo_lookup_other (ps : list Point.t) :
  forall (tt : Track.t * Timeline.t) (f : Z),
    ~ In f (map (fun p => Frame.number (Point.frame p)) ps) ->
    Track.points (fst (undo (CompoundAction ps) tt)) !! f
    = Track.points (fst tt) !! f.
Proof.
  induction ps as [|p ps IH]; intros tt f Hf; [reflexivity|].
  cbn [undo fold_left] in *. rewrite IH by (intros H; apply Hf; now right).
  cbn. apply lookup_delete_ne. intros Heq. apply Hf. now left.
Qed.

Lemma undo_lookup_in (ps : list Point.t) :
  forall (tt : Track.t * Timeline.t) (f : Z),
    In f (map (fun p => Frame.number (Point.frame p)) ps) ->
    Track.points (fst (undo (CompoundAction ps) tt)) !! f = None.
Proof.
  induction ps as [|p ps IH]; intros tt f Hf; [destruct Hf|].
  destruct (in_dec Z.eq_dec f
              (map (fun p => Frame.number (Point.frame p)) ps)) as [Hin|Hout].
  - cbn [undo fold_left] in *. now apply IH.
  - destruct Hf as [<-|Hf]; [|contradiction].
    pose proof (undo_lookup_other ps (Point_remove p tt) _ Hout) as H.
    cbn [undo fold_left] in *. rewrite H. cbn. apply lookup_delete_eq.
Qed.

Lemma pointsOf_frames (rs : list TrackingResult.t) (id : nat) :
  map (fun p => Frame.number (Point.frame p)) (pointsOf id rs)
  = map TrackingResult.frameNumber rs.
Proof.
  revert id. induction rs as [|r rs IH]; intros id; [reflexivity|].
  cbn. now rewrite IH.
Qed.

Lemma redo_points (rs : list TrackingResult.t) :
  forall (id : nat) (tt : Track.t * Timeline.t),
    Track.points (fst (redo (CompoundAction (pointsOf id rs)) tt))
    = insert_results id rs (Track.points (fst tt)).
Proof.
  induction rs as [|r rs IH]; intros id tt; [reflexivity|].
  cbn [pointsOf redo fold_left insert_results] in *. now rewrite IH.
Qed.

Lemma insert_results_base (rs : list TrackingResult.t) :
  forall (id : nat) (m1 m2 : gmap Z Point.t),
    (forall f : Z, ~ In f (map TrackingResult.frameNumber rs) ->
                   m1 !! f = m2 !! f) ->
    insert_results id rs m1 = insert_results id rs m2.
Proof.
  induction rs as [|r rs IH]; intros id m1 m2 Hsame; cbn [insert_results].
  - apply map_eq. intros f. apply Hsame. intros [].
  - apply IH. intros f Hf. rewrite !lookup_insert. case_decide as Hk; [reflexivity|].
    apply Hsame. intros [Heq|Hin]; [congruence|contradiction].
Qed.

Lemma undo_restores_fresh_frames (rs : list TrackingResult.t) (id : nat)
  (points : gmap Z Point.t) (table : list Row.t) (tl : Timeline.t) :
  (forall r, In r rs -> points !! TrackingResult.frameNumber r = None) ->
  Track.points
    (fst (undo (CompoundAction (pointsOf id rs))
            ({| Track.points := insert_results id rs points;
                Track.table := table |}, tl)))
  = points.
Proof.
  intros Hfresh. apply map_eq. intros f.
  destruct (in_dec Z.eq_dec f (map TrackingResult.frameNumber rs))
    as [Hin|Hout].
  - rewrite undo_lookup_in by (now rewrite pointsOf_frames).
    apply in_map_iff in Hin as (r & <- & Hr). symmetry. now apply Hfresh.
  - rewrite undo_lookup_other by (now rewrite pointsOf_frames).
    cbn. now apply insert_results_lookup_other.
Qed.

Lemma redo_after_undo (rs : list TrackingResult.t) (id : nat)
  (points : gmap Z Point.t) (table : list Row.t) (tl : Timeline.t) :
  let committed :=
    ({| Track.points := insert_results id rs points; Track.table := table |}, tl) in
  let a := CompoundAction (pointsOf id rs) in
  Track.points (fst (redo a (undo a committed))) = insert_results id rs points.
Proof.
  cbv zeta. rewrite redo_points. apply insert_results_base.
  intros f Hf. rewrite undo_lookup_other by (now rewrite pointsOf_frames).
  cbn. now apply insert_results_lookup_other.
Qed.

(** * Further properties of the engine *)

(** ** The frame sampler *)

Lemma seek_event_settled time ev s :
  Seek.listening s = false -> Seek.timer s = None -> seek_event time ev s = s.
Proof. intros Hl Ht. destruct ev; cbn; now rewrite ?Hl, ?Ht. Qed.

(** X1: a [seekToFrame] promise settles with the first event and stays as
    it is: after one event the promise is no longer pending, the listener
    and the timer are gone, and no later ['seeked'] or timer event changes
    anything. *)
Theorem seek_settles_once (currentTime time : Q) (ev : SeekEvent)
  (later : list SeekEvent) :
  let settled := seek_event time ev (seek_start currentTime time) in
  Seek.promise settled <> Pending /\
  Seek.listening settled = false /\
  Seek.timer settled = None /\
  fold_left (fun s e => seek_event time e s) later settled = settled.
Proof.
  cbv zeta.
  assert (H : Seek.promise (seek_event time ev (seek_start currentTime time))
              <> Pending /\
              Seek.listening (seek_event time ev (seek_start currentTime time))
              = false /\
              Seek.timer (seek_event time ev (seek_start currentTime time))
              = None).
  { unfold seek_start.
    destruct (Qlt_le_dec (Qabs (currentTime - time)) (1 # 1000));
      destruct ev; cbn; repeat split; discriminate. }
  destruct H as (Hp & Hl & Ht). repeat split; try assumption.
  induction later as [|e later IH]; [reflexivity|].
  cbn [fold_left]. now rewrite seek_event_settled.
Qed.

(** X2: once a seek to [time] has succeeded, seeking to the same [time]
    again resolves at once and requests no seek. *)
Theorem seek_again_is_immediate (ev : SeekEvent) (currentTime time t' : Q)
  (Hfirst : seekToFrame ev currentTime time = inr t') :
  seek_start t' time =
    {| Seek.currentTime := t'; Seek.seekRequested := false;
       Seek.listening := false; Seek.timer := None;
       Seek.promise := Resolved |} /\
  forall ev', seekToFrame ev' t' time = inr t'.
Proof.
  assert (Hnear : (Qabs (t' - time) < 1 # 1000)%Q).
  { unfold seekToFrame, seek_start in Hfirst.
    destruct (Qlt_le_dec (Qabs (currentTime - time)) (1 # 1000)) as [Hlt|Hge].
    - cbn in Hfirst. injection Hfirst as <-. exact Hlt.
    - destruct ev; cbn in Hfirst; [|discriminate].
      injection Hfirst as <-.
      assert (H0 : (time - time == 0)%Q) by ring.
      rewrite H0. reflexivity. }
  unfold seekToFrame, seek_start.
  destruct (Qlt_le_dec (Qabs (t' - time)) (1 # 1000)) as [Hlt|Hge].
  - split; [reflexivity|]. intros ev'. reflexivity.
  - exfalso. apply (Qlt_not_le _ _ Hnear Hge).
Qed.

Lemma seek_again_is_immediate_witness :
  seek_start (1 # 3) (1 # 3) =
    {| Seek.currentTime := 1 # 3; Seek.seekRequested := false;
       Seek.listening := false; Seek.timer := None;
       Seek.promise := Resolved |}.
Proof.
  refine (proj1 (seek_again_is_immediate EvSeeked 0 (1 # 3) (1 # 3) _)).
  reflexivity.
Defined.

(** ** The cropped region *)

(** X3: on a video of at least one pixel the rectangle cropped out of the
    start frame lies inside the video and is at least one pixel wide and
    high, whatever region was selected. *)
Theorem roiRect_inside_video (config : TrackingConfig.t)
  (Hw : 1 <= Video.videoWidth (TrackingConfig.video config))
  (Hh : 1 <= Video.videoHeight (TrackingConfig.video config)) :
  let r := roiRect config in
  0 <= Rect.x r /\ 0 <= Rect.y r /\
  1 <= Rect.width r /\ 1 <= Rect.height r /\
  Rect.x r + Rect.width r <= Video.videoWidth (TrackingConfig.video config) /\
  Rect.y r + Rect.height r <= Video.videoHeight (TrackingConfig.video config).
Proof.
  cbv zeta. unfold roiRect, clamp. cbn [Rect.x Rect.y Rect.width Rect.height].
  lia.
Qed.

Lemma roiRect_inside_video_witness :
  let r := roiRect (Fixture.config Template 20) in
  0 <= Rect.x r /\ 0 <= Rect.y r /\
  1 <= Rect.width r /\ 1 <= Rect.height r /\
  Rect.x r + Rect.width r <= 640 /\ Rect.y r + Rect.height r <= 480.
Proof.
  apply (roiRect_inside_video (Fixture.config Template 20)); cbn; lia.
Defined.

(** ** Runs that reach the last frame *)



Lemma seqZ_of_nat_to_nat (m d : Z) : seqZ m (Z.of_nat (Z.to_nat d)) = seqZ m d.
Proof. unfold seqZ. now rewrite Nat2Z.id. Qed.







Lemma opticalFlow_loop_complete env config
  (Hflow : flow_always_tracks env)
  (Hcancel : Env.cancelAt env = None)
  (Hs : sampling_succeeds env) (n : nat) :
  forall (f : Z) (t : Q) (prevGray : Mat.t) (prevPts : Q * Q),
    let run := opticalFlow_loop env config n f t prevGray prevPts in
    result_frames (fst run) = seqZ f (Z.of_nat n) /\
    snd run = Returned /\
    Forall (fun r => TrackingResult.confidence r = 1%Q) (results (fst run)).
Proof.
  induction n as [|n IH]; intros f t prevGray prevPts; cbv zeta;
    cbn [opticalFlow_loop].
  - split; [now rewrite seqZ_nil by lia|]. split; [reflexivity|constructor].
  - unfold signal_aborted. rewrite Hcancel.
    destruct (sampleFrame_succeeds env Hs f t) as [t' ->].
    pose proof (Hflow prevGray (Env.frameGray env f) prevPts) as Hst.
    destruct (Env.calcOpticalFlowPyrLK env prevGray (Env.frameGray env f) prevPts)
      as [status nextPts].
    cbn in Hst. subst status. cbn [Z.eqb Pos.eqb].
    destruct (IH (f + 1) t' (Env.frameGray env f) nextPts) as (IHf & IHe & IHc).
    cbv zeta in IHf, IHe, IHc. split; [|split].
    + unfold result_frames in *.
      rewrite results_yield_progress, results_yield_result. cbn [map].
      rewrite IHf. cbn [TrackingResult.frameNumber].
      rewrite (seqZ_cons f) by lia. f_equal. f_equal. lia.
    + exact IHe.
    + rewrite results_yield_progress, results_yield_result.
      constructor; [reflexivity|exact IHc].
Qed.

(** X5: when the flow finds the point in every frame, the run is not
    cancelled and every frame can be sampled, the optical-flow tracker
    yields one result with confidence 1 for each frame
    startFrame+1 .. endFrame and returns. *)
Theorem opticalFlow_tracks_every_frame (env : Env.t) (config : TrackingConfig.t)
  (Hflow : flow_always_tracks env)
  (Hcancel : Env.cancelAt env = None)
  (Hs : sampling_succeeds env) :
  let run := opticalFlowTrack env config in
  result_frames (fst run)
    = seqZ (TrackingConfig.startFrame config + 1)
        (TrackingConfig.endFrame config - TrackingConfig.startFrame config) /\
  snd run = Returned /\
  Forall (fun r => TrackingResult.confidence r = 1%Q) (results (fst run)).
Proof.
  cbv zeta. unfold opticalFlowTrack.
  destruct (sampleFrame_succeeds env Hs (TrackingConfig.startFrame config)
              (Video.currentTime (TrackingConfig.video config))) as [t' ->].
  cbv zeta.
  destruct (opticalFlow_loop_complete env config Hflow Hcancel Hs
              (iterations config) (TrackingConfig.startFrame config + 1) t'
              (Env.frameGray env (TrackingConfig.startFrame config))
              ((ROI.x (TrackingConfig.roi config)
                + ROI.width (TrackingConfig.roi config) / 2)%Q,
               (ROI.y (TrackingConfig.roi config)
                + ROI.height (TrackingConfig.roi config) / 2)%Q))
    as (Hf & He & Hc).
  cbv zeta in Hf, He, Hc. split; [|split; assumption].
  rewrite Hf. unfold iterations. apply seqZ_of_nat_to_nat.
Qed.

Lemma opticalFlow_tracks_every_frame_witness :
  result_frames (fst (opticalFlowTrack Fixture.env (Fixture.config OpticalFlow 20)))
  = seqZ 11 5.
Proof.
  refine (proj1 (opticalFlow_tracks_every_frame Fixture.env
                   (Fixture.config OpticalFlow 20) _ _ _)).
  - intros prevGray currGray prevPts. reflexivity.
  - reflexivity.
  - intros f. split; reflexivity.
Defined.

(** ** Progress records against results *)

Lemma sampleFrame_error env f t e :
  sampleFrame env f t = inl e -> e <> MatAlreadyDeleted.
Proof.
  unfold sampleFrame, seekToFrame, seek_start.
  destruct (Qlt_le_dec _ _); cbn.
  - destruct (Env.context2d env f); intros [= <-]; discriminate.
  - destruct (Env.seekEv env f); cbn.
    + destruct (Env.context2d env f); intros [= <-]; discriminate.
    + intros [= <-]. discriminate.
Qed.

Lemma templateMatch_loop_ending env config template n :
  forall (f : Z) (t cx cy : Q),
    let run := templateMatch_loop env config template n f t cx cy in
    match snd run with
    | Returned => length (progresses (fst run)) = length (results (fst run))
    | Threw e =>
        e <> MatAlreadyDeleted /\
        length (progresses (fst run)) = S (length (results (fst run))) /\
        exists items p, fst run = items ++ [Progress p]
    end.
Proof.
  induction n as [|n IH]; intros f t cx cy; cbv zeta;
    cbn [templateMatch_loop].
  - reflexivity.
  - destruct (signal_aborted env f); [reflexivity|].
    destruct (sampleFrame env f t) as [e|[frameGray t']] eqn:Hsample.
    { cbn. split; [now apply (sampleFrame_error env f t)|].
      split; [reflexivity|]. eexists [], _. reflexivity. }
    destruct (_ || _); [reflexivity|].
    match goal with
    | |- context [templateMatch_loop env config template n ?f' ?t' ?x ?y] =>
        specialize (IH f' t' x y); cbv zeta in IH;
        destruct (templateMatch_loop env config template n f' t' x y)
          as [items [|e]]
    end; cbn in IH |- *.
    + now rewrite IH.
    + destruct IH as (He & Hlen & items' & p & ->).
      split; [exact He|]. split; [now rewrite Hlen|].
      eexists (_ :: _ :: items'), p. reflexivity.
Qed.

Lemma opticalFlow_loop_ending env config n :
  forall (f : Z) (t : Q) (prevGray : Mat.t) (prevPts : Q * Q),
    let run := opticalFlow_loop env config n f t prevGray prevPts in
    match snd run with
    | Returned => length (progresses (fst run)) = length (results (fst run))
    | Threw e =>
        (e <> MatAlreadyDeleted /\
         length (progresses (fst run)) = S (length (results (fst run))) /\
         exists items p, fst run = items ++ [Progress p]) \/
        (e = MatAlreadyDeleted /\
         length (progresses (fst run)) = length (results (fst run)) /\
         exists items r, fst run = items ++ [Result r] /\
                         TrackingResult.confidence r = 0%Q)
    end.
Proof.
  induction n as [|n IH]; intros f t prevGray prevPts; cbv zeta;
    cbn [opticalFlow_loop].
  - reflexivity.
  - destruct (signal_aborted env f); [reflexivity|].
    destruct (sampleFrame env f t) as [e|[currGray t']] eqn:Hsample.
    { cbn. left. split; [now apply (sampleFrame_error env f t)|].
      split; [reflexivity|]. eexists [], _. reflexivity. }
    destruct (Env.calcOpticalFlowPyrLK env prevGray currGray prevPts)
      as [status nextPts].
    destruct (status =? 1).
    + specialize (IH (f + 1) t' currGray nextPts). cbv zeta in IH.
      destruct (opticalFlow_loop env config n (f + 1) t' currGray nextPts)
        as [items [|e]]; cbn in IH |- *.
      * now rewrite IH.
      * destruct IH as [(He & Hlen & items' & p & ->)
                       |(He & Hlen & items' & r & -> & Hr)].
        -- left. split; [exact He|]. split; [now rewrite Hlen|].
           eexists (_ :: _ :: items'), p. reflexivity.
        -- right. split; [exact He|]. split; [now rewrite Hlen|].
           eexists (_ :: _ :: items'), r. split; [reflexivity|exact Hr].
    + cbn. right. split; [reflexivity|]. split; [reflexivity|].
      eexists [_], _. split; reflexivity.
Qed.

Lemma progress_count_ending (env : Env.t) (config : TrackingConfig.t) :
  let run := trackObject env config in
  match snd run with
  | Returned => length (progresses (fst run)) = length (results (fst run))
  | Threw e =>
      (e <> MatAlreadyDeleted /\
       (fst run = [] \/
        length (progresses (fst run)) = S (length (results (fst run))) /\
        exists items p, fst run = items ++ [Progress p])) \/
      (e = MatAlreadyDeleted /\
       TrackingConfig.algorithm config = OpticalFlow /\
       length (progresses (fst run)) = length (results (fst run)) /\
       exists items r, fst run = items ++ [Result r] /\
                       TrackingResult.confidence r = 0%Q)
  end.
Proof.
  cbv zeta. unfold trackObject.
  destruct (TrackingConfig.algorithm config).
  - unfold templateMatchTrack.
    destruct (sampleFrame env _ _) as [e|[startGray t']] eqn:Hsample.
    { cbn. left. split; [now apply (sampleFrame_error env _ _ _ Hsample)|].
      now left. }
    cbv zeta.
    match goal with
    | |- context [templateMatch_loop env config ?tpl ?n ?f ?t ?x ?y] =>
        pose proof (templateMatch_loop_ending env config tpl n f t x y) as H;
        cbv zeta in H;
        destruct (snd (templateMatch_loop env config tpl n f t x y))
    end; [exact H|].
    left. destruct H as (He & Hlen & Hlast). split; [exact He|]. now right.
  - unfold opticalFlowTrack.
    destruct (sampleFrame env _ _) as [e|[prevGray t']] eqn:Hsample.
    { cbn. left. split; [now apply (sampleFrame_error env _ _ _ Hsample)|].
      now left. }
    cbv zeta.
    match goal with
    | |- context [opticalFlow_loop env config ?n ?f ?t ?g ?p] =>
        pose proof (opticalFlow_loop_ending env config n f t g p) as H;
        cbv zeta in H;
        destruct (snd (opticalFlow_loop env config n f t g p))
    end; [exact H|].
    destruct H as [(He & Hlen & Hlast)|(He & Hlen & Hlast)].
    + left. split; [exact He|]. now right.
    + right. repeat split; assumption.
Qed.

(** X6: in a run of either tracker that returns, there are as many
    progress records as results.  A run that throws a seek or canvas
    error either yielded nothing (the start frame could not be sampled) or
    ends on the progress record of the frame that failed, with exactly one
    progress record more than results.  The only other way a run throws
    is the optical-flow tracker's after it lost the point: the run then
    ends on the result with confidence 0, with as many progress records as
    results. *)
Theorem progress_count_against_results (env : Env.t) (config : TrackingConfig.t) :
  let run := trackObject env config in
  match snd run with
  | Returned => length (progresses (fst run)) = length (results (fst run))
  | Threw e =>
      (e <> MatAlreadyDeleted /\
       (fst run = [] \/
        length (progresses (fst run)) = S (length (results (fst run))) /\
        exists items p, fst run = items ++ [Progress p])) \/
      (e = MatAlreadyDeleted /\
       TrackingConfig.algorithm config = OpticalFlow /\
       length (progresses (fst run)) = length (results (fst run)) /\
       exists items r, fst run = items ++ [Result r] /\
                       TrackingResult.confidence r = 0%Q)
  end.
Proof.
  exact (progress_count_ending env config).
Qed.

(** * Further properties of the session controller *)

(** ** Selecting the region *)

Lemma dragROI_span (startX startY endX endY : Q) :
  let roi := dragROI startX startY endX endY in
  (ROI.x roi + ROI.width roi == Qmax startX endX)%Q /\
  (ROI.y roi + ROI.height roi == Qmax startY endY)%Q.
Proof.
  cbv zeta. unfold dragROI. cbn [ROI.x ROI.y ROI.width ROI.height].
  assert (H : forall a b : Q, (Qmin a b + Qabs (b - a) == Qmax a b)%Q).
  { intros a b.
    destruct (Q.min_spec a b) as [[Hlt Hmin]|[Hle Hmin]];
      destruct (Q.max_spec a b) as [[Hlt' Hmax]|[Hle' Hmax]];
      rewrite Hmin, Hmax.
    - rewrite Qabs_pos by lra. lra.
    - lra.
    - lra.
    - rewrite Qabs_neg by lra. lra. }
  split; apply H.
Qed.

(** X7: releasing a drag stores a region exactly when the rectangle
    between the two ends of the drag is at least 5 wide and 5 high in
    video coordinates.  The stored region is that rectangle: it starts at
    the smaller and ends at the larger coordinate of the two ends on each
    axis, whichever way the drag went; and the modal is shown.  A smaller
    rectangle stores nothing: the selection and its overlay are removed.
    Either way the track is untouched. *)
Theorem drag_selects_region (toScaled : Q * Q -> Q * Q) (stageX stageY : Q)
  (d : Drag.t) (w : World.t) (Hdrawing : Drag.drawing d = true) :
  let endCoords := toScaled (stageX, stageY) in
  let startX := Drag.startX d in
  let startY := Drag.startY d in
  let endX := fst endCoords in
  let endY := snd endCoords in
  let large := (5 <= Qabs (endX - startX))%Q /\ (5 <= Qabs (endY - startY))%Q in
  let '(d', w', outcome) := onPressUp toScaled stageX stageY d w in
  Drag.drawing d' = false /\
  World.track w' = World.track w /\
  match outcome with
  | PressIgnored => False
  | PressTooSmall =>
      ~ large /\
      World.currentROI w' = None /\ Ui.roiShape (World.ui w') = false
  | PressSelected roi =>
      large /\
      roi = dragROI startX startY endX endY /\
      World.currentROI w' = Some roi /\
      Ui.modalVisible (World.ui w') = true /\
      ROI.x roi = Qmin startX endX /\
      ROI.y roi = Qmin startY endY /\
      ROI.width roi = Qabs (endX - startX) /\
      ROI.height roi = Qabs (endY - startY) /\
      (ROI.x roi + ROI.width roi == Qmax startX endX)%Q /\
      (ROI.y roi + ROI.height roi == Qmax startY endY)%Q
  end.
Proof.
  cbv zeta. unfold onPressUp. rewrite Hdrawing. cbn [negb].
  destruct (dragROI_span (Drag.startX d) (Drag.startY d)
              (fst (toScaled (stageX, stageY))) (snd (toScaled (stageX, stageY))))
    as (Hsx & Hsy).
  cbv zeta in Hsx, Hsy.
  cbn [dragROI ROI.width ROI.height].
  destruct (Qlt_le_dec _ 5) as [Hw|Hw].
  { repeat split. intros [Hl _]. apply (Qlt_not_le _ _ Hw Hl). }
  destruct (Qlt_le_dec _ 5) as [Hh|Hh].
  { repeat split. intros [_ Hl]. apply (Qlt_not_le _ _ Hh Hl). }
  repeat split; assumption.
Qed.

Lemma drag_selects_region_witness :
  let d := onMouseDown (fun c => c) 100 50
             {| Drag.drawing := false; Drag.startX := 0; Drag.startY := 0;
                Drag.startStageX := 0; Drag.startStageY := 0 |} in
  World.currentROI (snd (fst (onPressUp (fun c => c) 60 90 d (Fixture.world ∅))))
  = Some (dragROI 100 50 60 90).
Proof.
  pose proof (drag_selects_region (fun c => c) 60 90
                (onMouseDown (fun c => c) 100 50
                   {| Drag.drawing := false; Drag.startX := 0; Drag.startY := 0;
                      Drag.startStageX := 0; Drag.startStageY := 0 |})
                (Fixture.world ∅) eq_refl) as H.
  cbv zeta in *.
  destruct (onPressUp _ _ _ _ _) as [[d' w'] outcome] eqn:Hp.
  destruct H as (_ & _ & H).
  vm_compute in Hp. injection Hp as <- <- <-.
  exact (proj1 (proj2 (proj2 H))).
Defined.

(** ** The overwrite question *)

Lemma filter_length_zero {A : Type} (f : A -> bool) (l : list A) :
  length (List.filter f l) = 0%nat <-> forall x, In x l -> f x = false.
Proof.
  induction l as [|a l IH]; cbn.
  - split; [intros _ x []|reflexivity].
  - destruct (f a) eqn:Hfa; cbn.
    + split; [discriminate|]. intros H. specialize (H a (or_introl eq_refl)).
      congruence.
    + rewrite IH. split.
      * intros H x [<-|Hx]; auto.
      * intros H x Hx. apply H. now right.
Qed.

(** X8: the count made before tracking starts is zero exactly when no
    frame of (startFrame, endFrame] holds a point of the track, and it
    never exceeds the number of frames of the range. *)
Theorem countExisting_zero_iff (points : gmap Z Point.t) (startFrame endFrame : Z) :
  (countExisting points startFrame endFrame = 0%nat <->
   forall f : Z, startFrame < f <= endFrame -> points !! f = None) /\
  (countExisting points startFrame endFrame
   <= Z.to_nat (endFrame - startFrame))%nat.
Proof.
  unfold countExisting. split.
  - rewrite filter_length_zero. split.
    + intros H f Hf.
      specialize (H f). rewrite <- list_elem_of_In, elem_of_seqZ in H.
      assert (Hb : bool_decide (is_Some (points !! f)) = false) by (apply H; lia).
      apply bool_decide_eq_false in Hb.
      destruct (points !! f) eqn:Hp; [|reflexivity].
      exfalso. apply Hb. eauto.
    + intros H f Hf. apply list_elem_of_In, elem_of_seqZ in Hf.
      apply bool_decide_eq_false. rewrite H by lia. intros [p Hp]. discriminate.
  - etransitivity; [apply List.filter_length_le|]. now rewrite length_seqZ.
Qed.

(** X9: a submission that passes validation while the range already holds
    points asks before it overwrites; when the user declines, the handler
    returns without tracking: no detached video is created and the track,
    the timeline, the undo history, the selected region and the open modal
    are as they were. *)
Theorem declined_overwrite_changes_nothing (senv : SessionEnv.t)
  (data : ModalExportData.t) (w : World.t) (currentROI : ROI.t)
  (algorithm : Algorithm) (s e m f : Z)
  (Hroi : World.currentROI w = Some currentROI)
  (Htrack : World.hasTrack w = true)
  (Halg : parseAlgorithm (ModalExportData.algorithm data) = Some algorithm)
  (Hvalid : validate data (Timeline.frameCount (World.timeline w)) = Accept s e m)
  (Hrange : s < f <= e)
  (Hpoint : is_Some (Track.points (World.track w) !! f))
  (Hdecline : SessionEnv.confirmOverwrite senv = false) :
  let n := countExisting (Track.points (World.track w)) s e in
  let w' := fst (submit senv (Some data) w) in
  (0 < n)%nat /\
  submit senv (Some data) w = (alertModal (MsgOverwrite n) w, Declined) /\
  World.track w' = World.track w /\
  World.timeline w' = World.timeline w /\
  World.history w' = World.history w /\
  World.currentROI w' = Some currentROI /\
  Ui.modalVisible (World.ui w') = Ui.modalVisible (World.ui w) /\
  Ui.detachedVideos (World.ui w') = Ui.detachedVideos (World.ui w).
Proof.
  cbv zeta.
  assert (Hn : (0 < countExisting (Track.points (World.track w)) s e)%nat).
  { destruct (countExisting (Track.points (World.track w)) s e) eqn:Hc; [|lia].
    exfalso. unfold countExisting in Hc. rewrite filter_length_zero in Hc.
    specialize (Hc f). rewrite <- list_elem_of_In, elem_of_seqZ in Hc.
    assert (Hb : bool_decide (is_Some (Track.points (World.track w) !! f)) = false)
      by (apply Hc; lia).
    apply bool_decide_eq_false in Hb. contradiction. }
  split; [exact Hn|].
  assert (Hsub : submit senv (Some data) w
                 = (alertModal (MsgOverwrite
                      (countExisting (Track.points (World.track w)) s e)) w,
                    Declined)).
  { unfold submit. rewrite Hroi, Htrack, Halg, Hvalid.
    apply Nat.ltb_lt in Hn. rewrite Hn, Hdecline. reflexivity. }
  rewrite Hsub. cbn [fst]. repeat split. exact Hroi.
Qed.

Lemma declined_overwrite_changes_nothing_witness :
  submit Fixture.decliningUser (Some (Fixture.data "template" "10" "12" "20"))
    (Fixture.world {[ 11 := Fixture.oldPoint ]})
  = (alertModal (MsgOverwrite 1) (Fixture.world {[ 11 := Fixture.oldPoint ]}),
     Declined).
Proof.
  refine (proj1 (proj2 (declined_overwrite_changes_nothing Fixture.decliningUser
            (Fixture.data "template" "10" "12" "20")
            (Fixture.world {[ 11 := Fixture.oldPoint ]}) Fixture.roi Template
            10 12 20 11 _ _ _ _ _ _ _))).
  - reflexivity.
  - reflexivity.
  - reflexivity.
  - reflexivity.
  - lia.
  - exists Fixture.oldPoint. reflexivity.
  - reflexivity.
Defined.

(** ** The detached video *)

(** X10: when the detached video does not load, the handler stops there:
    nothing is tracked or committed, and what comes after in the handler
    does not run either, so the video element created for the session is
    not torn down and the modal and the selected region stay as they
    are. *)
Theorem load_failure_skips_cleanup (senv : SessionEnv.t) (alg : Algorithm)
  (roi : ROI.t) (s e m : Z) (w : World.t)
  (Hload : SessionEnv.videoLoads senv = false) :
  let w' := fst (runSession senv alg roi s e m w) in
  snd (runSession senv alg roi s e m w) = LoadFailed /\
  World.track w' = World.track w /\
  World.timeline w' = World.timeline w /\
  World.history w' = World.history w /\
  World.currentROI w' = World.currentROI w /\
  Ui.detachedVideos (World.ui w') = S (Ui.detachedVideos (World.ui w)) /\
  Ui.modalVisible (World.ui w') = Ui.modalVisible (World.ui w) /\
  Ui.roiShape (World.ui w') = Ui.roiShape (World.ui w) /\
  Ui.submitDisabled (World.ui w') = Ui.submitDisabled (World.ui w) /\
  Ui.alerts (World.ui w') = Ui.alerts (World.ui w).
Proof.
  cbv zeta. unfold runSession. rewrite Hload. cbn. repeat split.
Qed.

Lemma load_failure_skips_cleanup_witness :
  Ui.detachedVideos
    (World.ui (fst (runSession Fixture.brokenVideo Template Fixture.roi 10 15 20
                      (Fixture.world ∅)))) = 1%nat.
Proof.
  refine (proj1 (proj2 (proj2 (proj2 (proj2 (proj2
            (load_failure_skips_cleanup Fixture.brokenVideo Template Fixture.roi
               10 15 20 (Fixture.world ∅) _))))))).
  reflexivity.
Defined.

(** ** The messages of a session *)

Lemma consume_broke_unconsumed s items acc text :
  Consumed.broke (consume s items acc text)
  = match unconsumed items with Some _ => true | None => false end.
Proof.
  revert acc text. induction items as [|[p|r] items IH]; intros acc text;
    cbn [consume unconsumed].
  - reflexivity.
  - apply IH.
  - destruct (Qlt_le_dec (TrackingResult.confidence r) confidenceThreshold);
      [reflexivity|apply IH].
Qed.

Lemma unconsumed_last_progress items p :
  unconsumed (items ++ [Progress p]) <> Some [].
Proof.
  induction items as [|[q|r] items IH]; cbn [app unconsumed].
  - discriminate.
  - exact IH.
  - destruct (Qlt_le_dec (TrackingResult.confidence r) confidenceThreshold);
      [|exact IH].
    intros [= H]. destruct items; discriminate.
Qed.

Lemma unconsumed_Some items rest :
  unconsumed items = Some rest ->
  exists before r,
    items = before ++ Result r :: rest /\
    (TrackingResult.confidence r < confidenceThreshold)%Q.
Proof.
  induction items as [|[q|r] items IH]; cbn [unconsumed].
  - discriminate.
  - intros H. destruct (IH H) as (before & r & -> & Hr).
    now exists (Progress q :: before), r.
  - destruct (Qlt_le_dec (TrackingResult.confidence r) confidenceThreshold)
      as [Hlt|Hge].
    + intros [= <-]. now exists [], r.
    + intros H. destruct (IH H) as (before & r' & -> & Hr).
      now exists (Result r :: before), r'.
Qed.

(** The error of a stream the loop left with [break], by algorithm. *)
Lemma streamError_broke env config rest :
  unconsumed (fst (trackObject env config)) = Some rest ->
  streamError (trackObject env config)
  = match TrackingConfig.algorithm config with
    | OpticalFlow => Some MatAlreadyDeleted
    | Template => None
    end.
Proof.
  intros Hrest. unfold streamError. rewrite Hrest.
  pose proof (progress_count_ending env config) as Hend.
  unfold trackObject in *.
  destruct (TrackingConfig.algorithm config).
  - destruct rest; [|reflexivity].
    destruct (snd (templateMatchTrack env config)); [reflexivity|].
    exfalso. destruct Hend as [(_ & [Hnil|(_ & items & p & Hlast)])
                              |(_ & Halg & _)].
    + rewrite Hnil in Hrest. discriminate.
    + rewrite Hlast in Hrest. now apply unconsumed_last_progress in Hrest.
    + discriminate.
  - destruct (unconsumed_Some _ _ Hrest) as (before & r & Hitems & Hr).
    destruct (opticalFlowTrack_confidence env config) as [Hconf Hlast].
    cbv zeta in Hconf, Hlast.
    assert (Hzero : TrackingResult.confidence r = 0%Q).
    { rewrite Forall_forall in Hconf.
      destruct (Hconf r) as [H0|H1]; [|exact H0|].
      - unfold results. apply list_elem_of_omap. exists (Result r).
        split; [|reflexivity]. rewrite Hitems.
        apply (list_elem_of_lookup_2 _ (length before)).
        now apply list_lookup_middle.
      - rewrite H1 in Hr. discriminate. }
    destruct (Hlast (length before) r) as [Hlen ->]; [|exact Hzero|].
    { rewrite Hitems. now apply list_lookup_middle. }
    rewrite Hitems, length_app in Hlen. cbn in Hlen.
    destruct rest; [reflexivity|cbn in Hlen; lia].
Qed.

(** X11: a session that ran shows at most two messages after the ones
    already shown.  First the failure message with the error, unless the
    user had pressed cancel, in two cases: the stream threw while the loop
    was pulling it; or the loop stopped on a low confidence with the
    optical-flow algorithm, where leaving the loop closes the generator
    and its [finally] block deletes the previous frame a second time.  A
    loop that stopped on a low confidence with the template algorithm
    shows no failure.  Then the summary: the cancellation notice with the
    number of kept results when cancel was pressed, otherwise the success
    message when at least one result was kept, otherwise nothing. *)
Theorem session_messages (senv : SessionEnv.t) (alg : Algorithm)
  (roi : ROI.t) (s e m : Z) (w : World.t)
  (Hload : SessionEnv.videoLoads senv = true) :
  let config := sessionConfig senv alg roi s e m in
  let c := consumeRun senv config (Ui.modalText (World.ui w)) in
  let n := length (Consumed.results c) in
  let thrown :=
    if Consumed.broke c then
      match alg with
      | OpticalFlow => Some MatAlreadyDeleted
      | Template => None
      end
    else
      match snd (trackObject (SessionEnv.engine senv) config) with
      | Threw err => Some err
      | Returned => None
      end in
  let failure :=
    match thrown with
    | Some err => if cancelPressed senv then [] else [MsgTrackingFailed err]
    | None => []
    end in
  let summary :=
    if cancelPressed senv then [MsgCancelled n]
    else match n with O => [] | S _ => [MsgSuccess n] end in
  Ui.alerts (World.ui (fst (runSession senv alg roi s e m w)))
  = Ui.alerts (World.ui w) ++ failure ++ summary.
Proof.
  cbv zeta. unfold runSession. rewrite Hload. cbn [negb]. cbv zeta.
  set (config := sessionConfig senv alg roi s e m).
  set (c := consumeRun senv config _).
  change (consumeRun senv config (Ui.modalText (World.ui w))) with c.
  assert (Hthrown :
            streamError (trackObject (SessionEnv.engine senv) config)
            = if Consumed.broke c then
                match alg with
                | OpticalFlow => Some MatAlreadyDeleted
                | Template => None
                end
              else
                match snd (trackObject (SessionEnv.engine senv) config) with
                | Threw err => Some err
                | Returned => None
                end).
  { unfold c, consumeRun. rewrite consume_broke_unconsumed.
    destruct (unconsumed (fst (trackObject (SessionEnv.engine senv) config)))
      as [rest|] eqn:Hrest.
    - now rewrite (streamError_broke _ _ rest Hrest).
    - unfold streamError. now rewrite Hrest. }
  rewrite Hthrown.
  destruct (Consumed.results c) as [|r rs] eqn:Hres;
    destruct (Consumed.broke c);
    destruct alg;
    destruct (snd (trackObject (SessionEnv.engine senv) config));
    destruct (cancelPressed senv);
    cbn; rewrite ?app_nil_r, <- ?app_assoc; reflexivity.
Qed.

Lemma session_messages_witness :
  Ui.alerts (World.ui (fst (runSession (Fixture.senv (Fixture.exitsAt 13))
                              OpticalFlow Fixture.roi 10 15 20 (Fixture.world ∅))))
  = [MsgTrackingFailed MatAlreadyDeleted; MsgSuccess 2].
Proof.
  exact (session_messages (Fixture.senv (Fixture.exitsAt 13)) OpticalFlow
           Fixture.roi 10 15 20 (Fixture.world ∅) eq_refl).
Defined.

(** ** What a commit keeps *)

Lemma Point_remove_keeps p tt :
  Timeline.frames (snd (Point_remove p tt)) = Timeline.frames (snd tt) /\
  Timeline.frameCount (snd (Point_remove p tt)) = Timeline.frameCount (snd tt) /\
  Timeline.currentFrame (snd (Point_remove p tt))
    = Timeline.currentFrame (snd tt) /\
  (track_keyed (Track.points (fst tt)) ->
   track_keyed (Track.points (fst (Point_remove p tt)))).
Proof.
  repeat split. intros Hk f q Hq. cbn in Hq.
  apply lookup_delete_Some in Hq as [_ Hq]. now apply Hk.
Qed.

Lemma commit_result_keeps pointExport st r :
  let st' := commit_result pointExport st r in
  Timeline.frames (Commit.timeline st') = Timeline.frames (Commit.timeline st) /\
  Timeline.frameCount (Commit.timeline st')
    = Timeline.frameCount (Commit.timeline st) /\
  Timeline.currentFrame (Commit.timeline st')
    = Timeline.currentFrame (Commit.timeline st) /\
  (track_keyed (Track.points (Commit.track st)) ->
   track_keyed (Track.points (Commit.track st'))).
Proof.
  cbv zeta. unfold commit_result.
  destruct (Timeline.frames (Commit.timeline st) !! TrackingResult.frameNumber r)
    as [frame|]; [|tauto].
  destruct (Track.points (Commit.track st) !! Frame.number frame)
    as [existing|].
  - destruct (Point_remove_keeps existing (Commit.track st, Commit.timeline st))
      as (Hf & Hc & Hcur & Hk).
    destruct (Point_remove existing (Commit.track st, Commit.timeline st))
      as [track1 timeline1]. cbn in *.
    repeat split; try assumption.
    intros Hkeyed f q. rewrite lookup_insert. case_decide as Hf'.
    + intros [= <-]. now subst f.
    + now apply Hk.
  - cbn. repeat split.
    intros Hkeyed f q. rewrite lookup_insert. case_decide as Hf'.
    + intros [= <-]. now subst f.
    + apply Hkeyed.
Qed.

Lemma commit_results_keep pointExport (rs : list TrackingResult.t) :
  forall st : Commit.t,
    let st' := fold_left (commit_result pointExport) rs st in
    Timeline.frames (Commit.timeline st') = Timeline.frames (Commit.timeline st) /\
    Timeline.frameCount (Commit.timeline st')
      = Timeline.frameCount (Commit.timeline st) /\
    Timeline.currentFrame (Commit.timeline st')
      = Timeline.currentFrame (Commit.timeline st) /\
    (track_keyed (Track.points (Commit.track st)) ->
     track_keyed (Track.points (Commit.track st'))).
Proof.
  induction rs as [|r rs IH]; intros st; cbv zeta; cbn [fold_left]; [tauto|].
  destruct (commit_result_keeps pointExport st r) as (Hf & Hc & Hcur & Hk).
  destruct (IH (commit_result pointExport st r)) as (IHf & IHc & IHcur & IHk).
  cbv zeta in *. rewrite IHf, IHc, IHcur. repeat split; auto.
Qed.

Lemma commitPhase_keeps senv rs w :
  let w' := commitPhase senv rs w in
  Timeline.frames (World.timeline w') = Timeline.frames (World.timeline w) /\
  Timeline.frameCount (World.timeline w')
    = Timeline.frameCount (World.timeline w) /\
  Timeline.currentFrame (World.timeline w')
    = Timeline.currentFrame (World.timeline w) /\
  (track_keyed (Track.points (World.track w)) ->
   track_keyed (Track.points (World.track w'))) /\
  (World.history w' = World.history w \/
   exists addedPoints,
     World.history w' = CompoundAction addedPoints :: World.history w).
Proof.
  cbv zeta. destruct rs as [|r rs]; [cbn; tauto|].
  unfold commitPhase, commit_results.
  destruct (commit_results_keep (SessionEnv.pointExport senv) (r :: rs)
              {| Commit.track := World.track w;
                 Commit.timeline := World.timeline w;
                 Commit.allocated := World.allocated w;
                 Commit.addedPoints := [] |}) as (Hf & Hc & Hcur & Hk).
  cbv zeta in *. cbn [World.timeline World.track World.history].
  cbn [Commit.track Commit.timeline] in *.
  repeat split; try assumption. right. eauto.
Qed.

(** X12: whatever a session does (video not loading, cancellation, lost
    target, error, full run), it leaves the frame objects of the timeline,
    the frame count and the playhead as they were, keeps every point of the
    track under its own frame number, and adds at most one action to the
    undo history. *)
Theorem session_keeps_timeline_and_keys (senv : SessionEnv.t) (alg : Algorithm)
  (roi : ROI.t) (s e m : Z) (w : World.t) :
  let w' := fst (runSession senv alg roi s e m w) in
  Timeline.frames (World.timeline w') = Timeline.frames (World.timeline w) /\
  Timeline.frameCount (World.timeline w')
    = Timeline.frameCount (World.timeline w) /\
  Timeline.currentFrame (World.timeline w')
    = Timeline.currentFrame (World.timeline w) /\
  World.hasTrack w' = World.hasTrack w /\
  (track_keyed (Track.points (World.track w)) ->
   track_keyed (Track.points (World.track w'))) /\
  (World.history w' = World.history w \/
   exists addedPoints,
     World.history w' = CompoundAction addedPoints :: World.history w).
Proof.
  cbv zeta. destruct (SessionEnv.videoLoads senv) eqn:Hload.
  - destruct (runSession_completed senv alg roi s e m w Hload)
      as (_ & Htr & Hfr & Hfc & _ & _ & Hcf & Hh & _ & Hht & _).
    cbv zeta in *.
    destruct (commitPhase_keeps senv
                (Consumed.results
                   (consumeRun senv (sessionConfig senv alg roi s e m)
                      (Ui.modalText (World.ui w)))) w)
      as (Kf & Kc & _ & Kk & Kh).
    cbv zeta in *. rewrite Htr, Hfr, Hfc, Hcf, Hh, Kf, Kc.
    repeat split; assumption.
  - unfold runSession. rewrite Hload. cbn. repeat split; auto.
Qed.

(** ** Results without a timeline frame *)

Lemma commit_results_no_frames pointExport (rs : list TrackingResult.t) :
  forall st : Commit.t,
    (forall r, In r rs ->
       Timeline.frames (Commit.timeline st) !! TrackingResult.frameNumber r
       = None) ->
    fold_left (commit_result pointExport) rs st = st.
Proof.
  induction rs as [|r rs IH]; intros st Hnone; [reflexivity|].
  cbn [fold_left].
  assert (Hr : commit_result pointExport st r = st).
  { unfold commit_result. now rewrite (Hnone r (or_introl eq_refl)). }
  rewrite Hr. apply IH. intros r' Hr'. apply Hnone. now right.
Qed.

(** X13: a kept result whose frame number has no frame object in the
    timeline is skipped by the commit.  When that is so for every kept
    result, no point is built and the track and the timeline are
    untouched, yet a compound action is still registered: one whose undo
    and redo have no point to act on. *)
Theorem commit_without_frames_registers_empty_action (senv : SessionEnv.t)
  (rs : list TrackingResult.t) (w : World.t)
  (Hsome : rs <> [])
  (Hnone : forall r, In r rs ->
     Timeline.frames (World.timeline w) !! TrackingResult.frameNumber r = None) :
  let w' := commitPhase senv rs w in
  World.track w' = World.track w /\
  World.timeline w' = World.timeline w /\
  World.allocated w' = World.allocated w /\
  World.history w' = CompoundAction [] :: World.history w /\
  forall tt, undo (CompoundAction []) tt = tt /\ redo (CompoundAction []) tt = tt.
Proof.
  cbv zeta. destruct rs as [|r rs]; [congruence|].
  unfold commitPhase, commit_results.
  rewrite commit_results_no_frames by exact Hnone. cbn. repeat split.
Qed.

Lemma commit_without_frames_registers_empty_action_witness :
  let w := {| World.hasTrack := true;
              World.track := {| Track.points := ∅; Track.table := [] |};
              World.timeline := Fixture.emptyTimeline;
              World.history := []; World.allocated := 0;
              World.currentROI := None; World.ui := Fixture.ui |} in
  World.history
    (commitPhase (Fixture.senv Fixture.env)
       [{| TrackingResult.frameNumber := 11; TrackingResult.x := 1;
           TrackingResult.y := 2; TrackingResult.confidence := 1 |}] w)
  = [CompoundAction []].
Proof.
  refine (proj1 (proj2 (proj2 (proj2
            (commit_without_frames_registers_empty_action
               (Fixture.senv Fixture.env) _ _ _ _))))).
  - discriminate.
  - intros r [<-|[]]. reflexivity.
Defined.

(** ** Undo and redo of a batch that overwrote nothing *)

(** X14: when none of the frames of the kept results held a point before
    the commit, the undo of the action the commit registers gives back the
    point mapping of the track exactly as it was, and redo after that undo
    gives back the committed mapping.  ([point.remove] and
    [point.unRemove] as modelled from the specification.) *)
Theorem undo_redo_without_overwrite (senv : SessionEnv.t)
  (rs : list TrackingResult.t) (w : World.t)
  (Hsome : rs <> [])
  (Hhas : timeline_has (World.timeline w) rs)
  (Hkeyed : track_keyed (Track.points (World.track w)))
  (Hfresh : forall r, In r rs ->
     Track.points (World.track w) !! TrackingResult.frameNumber r = None) :
  let w' := commitPhase senv rs w in
  exists a : Action,
    World.history w' = a :: World.history w /\
    Track.points (fst (undo a (World.track w', World.timeline w')))
      = Track.points (World.track w) /\
    Track.points
      (fst (redo a (undo a (World.track w', World.timeline w'))))
      = Track.points (World.track w').
Proof.
  cbv zeta.
  destruct (commitPhase_points senv rs w Hhas Hkeyed) as [Hpts Hhist].
  specialize (Hhist Hsome).
  exists (CompoundAction (pointsOf (World.allocated w) rs)).
  split; [exact Hhist|].
  destruct (World.track (commitPhase senv rs w)) as [pts tbl]; cbn in Hpts.
  subst pts. split.
  - now apply undo_restores_fresh_frames.
  - apply redo_after_undo.
Qed.

Lemma undo_redo_without_overwrite_witness :
  let w := Fixture.world ∅ in
  let rs := [{| TrackingResult.frameNumber := 11; TrackingResult.x := 1;
                TrackingResult.y := 2; TrackingResult.confidence := 1 |}] in
  let w' := commitPhase (Fixture.senv Fixture.env) rs w in
  exists a : Action,
    World.history w' = a :: World.history w /\
    Track.points (fst (undo a (World.track w', World.timeline w')))
      = Track.points (World.track w) /\
    Track.points
      (fst (redo a (undo a (World.track w', World.timeline w'))))
      = Track.points (World.track w').
Proof.
  apply (undo_redo_without_overwrite (Fixture.senv Fixture.env)).
  - discriminate.
  - intros r [<-|[]]. reflexivity.
  - intros f p Hp.
    assert (H0 : Track.points (World.track (Fixture.world ∅)) !! f = None)
      by apply lookup_empty.
    congruence.
  - intros r _. apply lookup_empty.
Defined.

(** ** The search margin in validation *)

(** X15: validation looks at the search margin only to see that it
    parses.  Replacing the margin of an accepted submission by any other
    text that parses, a negative number included, gives an accepted
    submission with the same frames; replacing it by text that does not
    parse gives the "valid numbers" rejection. *)
Theorem validation_ignores_margin_value (data : ModalExportData.t)
  (frameCount s e m : Z) (margin : string)
  (Hvalid : validate data frameCount = Accept s e m) :
  validate {| ModalExportData.algorithm := ModalExportData.algorithm data;
              ModalExportData.startFrame := ModalExportData.startFrame data;
              ModalExportData.endFrame := ModalExportData.endFrame data;
              ModalExportData.searchMargin := margin |} frameCount
  = match parseInt margin with
    | Some m' => Accept s e m'
    | None => Reject MsgValidNumbers
    end.
Proof.
  unfold validate in *. cbn [ModalExportData.startFrame ModalExportData.endFrame
                             ModalExportData.searchMargin].
  destruct (parseInt (ModalExportData.startFrame data)) as [s'|]; [|discriminate].
  destruct (parseInt (ModalExportData.endFrame data)) as [e'|]; [|discriminate].
  destruct (parseInt (ModalExportData.searchMargin data)) as [m0|];
    [|discriminate].
  destruct (parseInt margin) as [m'|]; [|reflexivity].
  destruct (s' >=? e'); [discriminate|].
  destruct ((s' <? 0) || (e' >? frameCount)); [discriminate|].
  injection Hvalid as -> -> _. reflexivity.
Qed.

Lemma validation_ignores_margin_value_witness :
  validate (Fixture.data "template" "10" "12" "-5") 20 = Accept 10 12 (-5).
Proof.
  exact (validation_ignores_margin_value
           (Fixture.data "template" "10" "12" "20") 20 10 12 20 "-5" eq_refl).
Defined.

(** * The OpenCV loader *)

Lemma loadOpenCV_caches l :
  Loader.cvReady (fst (loadOpenCV l)) = Some (snd (loadOpenCV l)).
Proof.
  unfold loadOpenCV. destruct (Loader.cvReady l) eqn:Hc; [exact Hc|].
  destruct (Loader.cvDefined l); reflexivity.
Qed.

Lemma loadOpenCV_cached l p : Loader.cvReady l = Some p -> loadOpenCV l = (l, p).
Proof. intros H. unfold loadOpenCV. now rewrite H. Qed.

(** X16: [loadOpenCV] can be called again and again: after a first call,
    any number of further calls return the promise of the first one and
    change nothing, so that together they append at most one script. *)
Theorem loadOpenCV_repeated_calls (l : Loader.t) (calls : nat) :
  let l1 := fst (loadOpenCV l) in
  let p1 := snd (loadOpenCV l) in
  loadOpenCV l1 = (l1, p1) /\
  Nat.iter calls (fun l' => fst (loadOpenCV l')) l1 = l1 /\
  (length (Loader.scripts l1) <= S (length (Loader.scripts l)))%nat.
Proof.
  cbv zeta. pose proof (loadOpenCV_caches l) as Hc.
  split; [now apply loadOpenCV_cached|]. split.
  - induction calls as [|n IH]; [reflexivity|].
    rewrite Nat.iter_succ, IH. now rewrite (loadOpenCV_cached _ _ Hc).
  - unfold loadOpenCV. destruct (Loader.cvReady l); [cbn; lia|].
    destruct (Loader.cvDefined l); cbn; rewrite ?length_app; cbn; lia.
Qed.

Lemma settle_lookup_alive q ps p :
  (ps !! p = Some Loading \/ ps !! p = Some Ready) ->
  settle q Ready ps !! p = Some Loading \/ settle q Ready ps !! p = Some Ready.
Proof.
  intros H. unfold settle. destruct (ps !! q) as [[| |]|] eqn:Hq; try exact H.
  destruct (decide (q = p)) as [->|Hne].
  - right. apply list_lookup_insert_eq. now apply lookup_lt_Some in Hq.
  - now rewrite list_lookup_insert_ne.
Qed.

Lemma loader_step_cached_alive l op :
  (forall p, Loader.cvReady l = Some p ->
     Loader.promises l !! p = Some Loading \/ Loader.promises l !! p = Some Ready) ->
  forall p, Loader.cvReady (loader_step l op) = Some p ->
    Loader.promises (loader_step l op) !! p = Some Loading \/
    Loader.promises (loader_step l op) !! p = Some Ready.
Proof.
  intros Hinv p. destruct op as [| |k]; cbn [loader_step].
  - unfold loadOpenCV. destruct (Loader.cvReady l) as [c|] eqn:Hc.
    + cbn. rewrite Hc. apply Hinv.
    + destruct (Loader.cvDefined l); cbn; intros [= <-];
        rewrite lookup_app_r, Nat.sub_diag by lia; cbn; auto.
  - cbn. intros Hp. destruct (Loader.moduleHook l) as [q|]; [|now apply Hinv].
    apply settle_lookup_alive. now apply Hinv.
  - destruct (Loader.scripts l !! k); [cbn; discriminate|apply Hinv].
Qed.

Lemma loader_run_cached_alive (cvDefined : bool) (ops : list LoaderOp) :
  forall p,
    Loader.cvReady (fold_left loader_step ops (freshLoader cvDefined)) = Some p ->
    Loader.promises (fold_left loader_step ops (freshLoader cvDefined)) !! p
      = Some Loading \/
    Loader.promises (fold_left loader_step ops (freshLoader cvDefined)) !! p
      = Some Ready.
Proof.
  assert (H0 : forall p, Loader.cvReady (freshLoader cvDefined) = Some p ->
               Loader.promises (freshLoader cvDefined) !! p = Some Loading \/
               Loader.promises (freshLoader cvDefined) !! p = Some Ready)
    by (cbn; discriminate).
  revert H0. generalize (freshLoader cvDefined).
  induction ops as [|op ops IH]; intros l H0; [exact H0|].
  cbn [fold_left]. apply IH. now apply loader_step_cached_alive.
Qed.

Lemma loadOpenCV_alive (cvDefined : bool) (ops : list LoaderOp) :
  let l := fold_left loader_step ops (freshLoader cvDefined) in
  Loader.promises (fst (loadOpenCV l)) !! snd (loadOpenCV l) = Some Loading \/
  Loader.promises (fst (loadOpenCV l)) !! snd (loadOpenCV l) = Some Ready.
Proof.
  cbv zeta.
  apply (loader_step_cached_alive _ CallLoadOpenCV
           (loader_run_cached_alive cvDefined ops)).
  apply loadOpenCV_caches.
Qed.

(** X17: whatever calls, start-ups and script errors came before, the
    promise [loadOpenCV] returns is never one that has already been
    rejected: it is pending or resolved. *)
Theorem loadOpenCV_never_returns_failed (cvDefined : bool) (ops : list LoaderOp) :
  let l := fold_left loader_step ops (freshLoader cvDefined) in
  Loader.promises (fst (loadOpenCV l)) !! snd (loadOpenCV l) = Some Loading \/
  Loader.promises (fst (loadOpenCV l)) !! snd (loadOpenCV l) = Some Ready.
Proof. exact (loadOpenCV_alive cvDefined ops). Qed.

(** X18: a failed load can be tried again.  When nothing is cached and
    [cv] is not defined, a call appends a script; if that script errors,
    its promise is rejected and forgotten, and the next call appends a
    second script and returns a new, pending promise. *)
Theorem loadOpenCV_retries_after_error (l : Loader.t)
  (Hnone : Loader.cvReady l = None) (Hcv : Loader.cvDefined l = false) :
  let l1 := fst (loadOpenCV l) in
  let p := snd (loadOpenCV l) in
  let l2 := loader_step l1 (ScriptError (length (Loader.scripts l))) in
  let l3 := fst (loadOpenCV l2) in
  let p' := snd (loadOpenCV l2) in
  Loader.promises l2 !! p = Some Failed /\
  Loader.cvReady l2 = None /\
  p' <> p /\
  Loader.promises l3 !! p' = Some Loading /\
  Loader.scripts l3 = Loader.scripts l ++ [p; p'].
Proof.
  cbv zeta.
  set (ps := Loader.promises l). set (ss := Loader.scripts l).
  assert (E1 : loadOpenCV l =
               ({| Loader.cvReady := Some (length ps);
                   Loader.promises := ps ++ [Loading];
                   Loader.scripts := ss ++ [length ps];
                   Loader.moduleHook := Some (length ps);
                   Loader.cvDefined := Loader.cvDefined l |}, length ps)).
  { unfold loadOpenCV. rewrite Hnone, Hcv. reflexivity. }
  rewrite E1. cbn [fst snd].
  assert (E2 : loader_step
                 {| Loader.cvReady := Some (length ps);
                    Loader.promises := ps ++ [Loading];
                    Loader.scripts := ss ++ [length ps];
                    Loader.moduleHook := Some (length ps);
                    Loader.cvDefined := Loader.cvDefined l |}
                 (ScriptError (length ss))
               = {| Loader.cvReady := None;
                    Loader.promises := ps ++ [Failed];
                    Loader.scripts := ss ++ [length ps];
                    Loader.moduleHook := Some (length ps);
                    Loader.cvDefined := Loader.cvDefined l |}).
  { cbn [loader_step Loader.scripts Loader.promises Loader.moduleHook
         Loader.cvDefined].
    rewrite (list_lookup_middle ss [] _ _ eq_refl).
    unfold settle. rewrite (list_lookup_middle ps [] _ _ eq_refl).
    rewrite insert_app_r_alt, Nat.sub_diag by lia. reflexivity. }
  rewrite E2. unfold loadOpenCV.
  cbn [Loader.cvReady Loader.cvDefined Loader.promises Loader.scripts].
  rewrite Hcv. cbn [fst snd Loader.promises Loader.scripts Loader.cvReady].
  assert (Hlen : length (ps ++ [Failed]) = S (length ps))
    by (rewrite length_app; cbn; lia).
  split; [apply (list_lookup_middle ps [] _ _ eq_refl)|].
  split; [reflexivity|]. split; [lia|]. split.
  - apply (list_lookup_middle (ps ++ [Failed]) [] _ _ eq_refl).
  - now rewrite <- app_assoc.
Qed.

Lemma loadOpenCV_retries_after_error_witness :
  Loader.scripts
    (fst (loadOpenCV
            (loader_step (fst (loadOpenCV (freshLoader false))) (ScriptError 0))))
  = [0; 1]%nat.
Proof.
  exact (proj2 (proj2 (proj2 (proj2
           (loadOpenCV_retries_after_error (freshLoader false)
              eq_refl eq_refl))))).
Defined.

Lemma loader_step_cv_defined l op :
  Loader.cvDefined l = true /\ Loader.scripts l = [] /\
  Forall (fun st => st = Ready) (Loader.promises l) ->
  Loader.cvDefined (loader_step l op) = true /\
  Loader.scripts (loader_step l op) = [] /\
  Forall (fun st => st = Ready) (Loader.promises (loader_step l op)).
Proof.
  intros (Hd & Hs & Hp). destruct op as [| |k]; cbn [loader_step].
  - unfold loadOpenCV. destruct (Loader.cvReady l); [cbn; auto|].
    rewrite Hd. cbn. repeat split; auto.
    apply Forall_app. split; [exact Hp|]. now constructor.
  - cbn. repeat split; auto.
    destruct (Loader.moduleHook l) as [q|]; [|exact Hp].
    unfold settle. destruct (Loader.promises l !! q) as [[| |]|] eqn:Hq;
      try exact Hp.
    rewrite Forall_forall in Hp.
    assert (Hin : Loading ∈ Loader.promises l)
      by (apply list_elem_of_lookup; eauto).
    apply Hp in Hin. discriminate.
  - rewrite Hs. cbn. auto.
Qed.

(** X19: on a page where [cv] is already defined the loader never appends
    a script, and every promise it creates is resolved from the start,
    whatever is called and whatever events arrive. *)
Theorem loadOpenCV_no_script_when_cv_defined (ops : list LoaderOp) :
  let l := fold_left loader_step ops (freshLoader true) in
  Loader.scripts l = [] /\
  Forall (fun st => st = Ready) (Loader.promises l) /\
  Loader.promises (fst (loadOpenCV l)) !! snd (loadOpenCV l) = Some Ready.
Proof.
  cbv zeta.
  assert (Hinv : Loader.cvDefined (fold_left loader_step ops (freshLoader true))
                 = true /\
                 Loader.scripts (fold_left loader_step ops (freshLoader true))
                 = [] /\
                 Forall (fun st => st = Ready)
                   (Loader.promises
                      (fold_left loader_step ops (freshLoader true)))).
  { assert (H0 : Loader.cvDefined (freshLoader true) = true /\
                 Loader.scripts (freshLoader true) = [] /\
                 Forall (fun st => st = Ready)
                   (Loader.promises (freshLoader true)))
      by (cbn; repeat split; constructor).
    revert H0. generalize (freshLoader true).
    induction ops as [|op ops IH]; intros l H0; [exact H0|].
    cbn [fold_left]. apply IH. now apply loader_step_cv_defined. }
  destruct Hinv as (Hd & Hs & Hp).
  split; [exact Hs|]. split; [exact Hp|].
  destruct (loader_step_cv_defined _ CallLoadOpenCV (conj Hd (conj Hs Hp)))
    as (_ & _ & Hp').
  cbn [loader_step] in Hp'.
  destruct (loadOpenCV_alive true ops) as [Hl|Hr]; [|exact Hr].
  cbv zeta in Hl. rewrite Forall_forall in Hp'.
  assert (Hin : Loading ∈ Loader.promises
                  (fst (loadOpenCV (fold_left loader_step ops (freshLoader true)))))
    by (apply list_elem_of_lookup; eauto).
  apply Hp' in Hin. discriminate.
Qed.

(** * The webcam module *)

Lemma find_first {A : Type} (f : A -> bool) (l : list A) (x : A) :
  List.find f l = Some x ->
  f x = true /\
  exists pre post, l = pre ++ x :: post /\ forall t, In t pre -> f t = false.
Proof.
  induction l as [|a l IH]; [discriminate|]. cbn.
  destruct (f a) eqn:Hfa.
  - intros [= <-]. split; [exact Hfa|]. exists [], l. split; [reflexivity|].
    intros t [].
  - intros H. destruct (IH H) as (Hx & pre & post & -> & Hpre).
    split; [exact Hx|]. exists (a :: pre), post. split; [reflexivity|].
    intros t [<-|Ht]; auto.
Qed.

(** X20: [getSupportedMimeType] answers the empty string exactly when the
    recorder supports none of the four types; otherwise it answers a type
    of the list that the recorder supports, and every type listed before
    it is unsupported: vp9 is preferred to vp8, vp8 to plain WebM, WebM to
    MP4. *)
Theorem getSupportedMimeType_first_supported (isTypeSupported : string -> bool) :
  let type := getSupportedMimeType isTypeSupported in
  (type = ""%string <->
   forall t, In t mimeTypes -> isTypeSupported t = false) /\
  (type <> ""%string ->
   isTypeSupported type = true /\
   exists pre post,
     mimeTypes = pre ++ type :: post /\
     forall t, In t pre -> isTypeSupported t = false).
Proof.
  cbv zeta. unfold getSupportedMimeType.
  destruct (List.find isTypeSupported mimeTypes) as [t|] eqn:Hfind.
  - destruct (find_first _ _ _ Hfind) as (Ht & pre & post & Hsplit & Hpre).
    assert (Hin : In t mimeTypes) by (rewrite Hsplit; apply in_elt).
    split.
    + split.
      * intros ->. cbn in Hin. intuition discriminate.
      * intros Hnone. rewrite (Hnone t Hin) in Ht. discriminate.
    + intros _. split; [exact Ht|eauto].
  - split; [|congruence]. split; [|reflexivity].
    intros _ t Ht. exact (List.find_none _ _ Hfind t Ht).
Qed.

(** ** [fixWebmDuration] *)

Lemma fix_event_settled s ev :
  Fix.promise s <> FixPending -> Fix.promise (fix_event s ev) = Fix.promise s.
Proof.
  intros Hs. destruct ev as [d|d| |]; cbn;
    try destruct (validDuration d); cbn;
    destruct (Fix.promise s); try reflexivity; congruence.
Qed.

Lemma fix_events_settled (events : list FixEvent) :
  forall s, Fix.promise s <> FixPending ->
    Fix.promise (fold_left fix_event events s) = Fix.promise s.
Proof.
  induction events as [|ev events IH]; intros s Hs; [reflexivity|].
  cbn [fold_left]. rewrite IH; [now apply fix_event_settled|].
  now rewrite fix_event_settled.
Qed.

Lemma validDuration_positive duration d :
  validDuration duration = Some d -> (0 < d)%Q.
Proof.
  unfold validDuration. destruct duration as [q|]; [|discriminate].
  destruct (Qlt_le_dec 0 q); [|discriminate]. now intros [= <-].
Qed.

Lemma fix_event_positive s ev :
  (forall d, Fix.promise s = FixResolved d -> (0 < d)%Q) ->
  forall d, Fix.promise (fix_event s ev) = FixResolved d -> (0 < d)%Q.
Proof.
  intros Hs d. destruct ev as [q|q| |]; cbn;
    try (destruct (validDuration q) as [d'|] eqn:Hv; cbn);
    destruct (Fix.promise s) eqn:Hp; cbn; intros H;
    try discriminate; try (now apply Hs);
    injection H as <-; now apply (validDuration_positive q).
Qed.

(** X21: [fixWebmDuration] only ever resolves with a duration that is
    finite and positive; once its promise is settled, no later event
    changes the outcome; and once the 10 s timer has fired the promise is
    settled. *)
Theorem fixWebmDuration_outcome (events later : list FixEvent) :
  (forall d, Fix.promise (fixWebmDuration events) = FixResolved d -> (0 < d)%Q) /\
  (Fix.promise (fixWebmDuration events) <> FixPending ->
   Fix.promise (fixWebmDuration (events ++ later))
   = Fix.promise (fixWebmDuration events)) /\
  (In FixTimerFired events -> Fix.promise (fixWebmDuration events) <> FixPending).
Proof.
  unfold fixWebmDuration. split; [|split].
  - assert (H0 : forall d, Fix.promise fix_start = FixResolved d -> (0 < d)%Q)
      by (cbn; discriminate).
    revert H0. generalize fix_start.
    induction events as [|ev events IH]; intros s H0; [exact H0|].
    cbn [fold_left]. apply IH. now apply fix_event_positive.
  - intros Hs. rewrite fold_left_app. now apply fix_events_settled.
  - generalize fix_start.
    induction events as [|ev events IH]; intros s Hin; [destruct Hin|].
    cbn [fold_left]. destruct Hin as [->|Hin]; [|now apply IH].
    rewrite fix_events_settled; cbn; destruct (Fix.promise s); discriminate.
Qed.

Lemma fixWebmDuration_outcome_witness :
  Fix.promise (fixWebmDuration
                 [LoadedMetadata None; VideoSeeked (Some (7 # 2)); FixTimerFired])
  = FixResolved (7 # 2).
Proof.
  refine (eq_trans
            (proj1 (proj2 (fixWebmDuration_outcome
                             [LoadedMetadata None; VideoSeeked (Some (7 # 2))]
                             [FixTimerFired])) _) _).
  - discriminate.
  - reflexivity.
Defined.

(** ** [WebcamRecorder] *)

Lemma webcam_step_tracks (n : nat) (c : Webcam.t) (op : WebcamOp) :
  Webcam.liveTracks c = (n + held_tracks c)%nat ->
  Webcam.liveTracks (webcam_step c op)
  = (n + held_tracks (webcam_step c op) + leakedTracks c [op])%nat.
Proof.
  unfold held_tracks. intros H.
  assert (Hfold : forall (l : list N) (c0 : Webcam.t),
             Webcam.liveTracks
               (fold_left (fun c1 size => ondataavailable size c1) l c0)
             = Webcam.liveTracks c0 /\
             Webcam.stream
               (fold_left (fun c1 size => ondataavailable size c1) l c0)
             = Webcam.stream c0).
  { induction l as [|a l IH]; intros c0; [split; reflexivity|].
    cbn [fold_left]. destruct (IH (ondataavailable a c0)) as [-> ->].
    unfold ondataavailable. destruct (0 <? a)%N; split; reflexivity. }
  destruct op as [[k|]|[k|] dev| |[k|] dev| | |size|pending|];
    cbn [webcam_step leakedTracks]; rewrite ?Nat.add_0_r.
  - cbn. lia.
  - exact H.
  - cbn. destruct (Webcam.stream c); lia.
  - cbn. destruct (Webcam.stream c); lia.
  - cbn. destruct (Webcam.stream c); lia.
  - cbn. unfold held_tracks. destruct (Webcam.stream c); lia.
  - cbn. exact H.
  - cbn. destruct (Webcam.stream c); lia.
  - unfold startRecording. destruct (Webcam.stream c) eqn:Hs; cbn;
      rewrite ?Hs; exact H.
  - unfold ondataavailable. destruct (0 <? size)%N; cbn; exact H.
  - unfold stopRecording. destruct (Webcam.mediaRecorder c) as [[|]|];
      cbn [fst]; try exact H.
    unfold onstop. cbn [fst setChunks Webcam.liveTracks Webcam.stream].
    destruct (Hfold pending
                {| Webcam.stream := Webcam.stream c;
                   Webcam.mediaRecorder := Some Inactive;
                   Webcam.recordedChunks := Webcam.recordedChunks c;
                   Webcam.previewElement := Webcam.previewElement c;
                   Webcam.previewHasStream := Webcam.previewHasStream c;
                   Webcam.currentDeviceId := Webcam.currentDeviceId c;
                   Webcam.liveTracks := Webcam.liveTracks c |}) as [-> ->].
    exact H.
  - cbn. destruct (Webcam.stream c); lia.
Qed.

Lemma webcam_run_tracks (ops : list WebcamOp) :
  forall (n : nat) (c : Webcam.t),
    Webcam.liveTracks c = (n + held_tracks c)%nat ->
    let c' := fold_left webcam_step ops c in
    Webcam.liveTracks c' = (n + held_tracks c' + leakedTracks c ops)%nat.
Proof.
  induction ops as [|op ops IH]; intros n c H; cbv zeta;
    cbn [fold_left leakedTracks].
  - lia.
  - pose proof (webcam_step_tracks n c op H) as Hstep.
    cbn [leakedTracks] in Hstep. rewrite Nat.add_0_r in Hstep.
    set (l := match op with
              | OpStartPreviewResume (Some _) _ => held_tracks c
              | _ => 0%nat
              end) in *.
    assert (H' : Webcam.liveTracks (webcam_step c op)
                 = (n + l + held_tracks (webcam_step c op))%nat) by lia.
    pose proof (IH (n + l)%nat (webcam_step c op) H') as IH'.
    cbv zeta in IH'. lia.
Qed.

Lemma leakedTracks_awaited (ops : list WebcamOp) :
  forall c : Webcam.t,
    forallb awaited ops = true -> leakedTracks c ops = 0%nat.
Proof.
  induction ops as [|op ops IH]; intros c Hops; [reflexivity|].
  cbn [forallb] in Hops. apply andb_prop in Hops as [Hop Hops].
  cbn [leakedTracks]. rewrite (IH _ Hops).
  destruct op as [?|? ?| |[?|] ?| | |?|?|]; try reflexivity; discriminate.
Qed.

(** X22: the live camera tracks of the page are those it had before the
    recorder was created, those of the stream the recorder holds, and the
    leaked ones: the tracks of every stream that a [startPreview], resuming
    after [getUserMedia], found in [this.stream] and replaced.
    [stopPreview] and [cleanup] stop the tracks of the held stream and no
    others.  When every [startPreview] is awaited before the next call on
    the recorder, nothing leaks: after [stopPreview] or [cleanup] the page
    has the tracks it had before.  Two [startPreview] calls that overlap
    leak the stream granted to the first: its tracks stay live after
    [cleanup]. *)
Theorem webcam_tracks_are_released (n : nat) (ops : list WebcamOp) :
  let c := fold_left webcam_step ops (newWebcamRecorder n) in
  let leaked := leakedTracks (newWebcamRecorder n) ops in
  Webcam.liveTracks c = (n + held_tracks c + leaked)%nat /\
  Webcam.liveTracks (stopPreview c) = (n + leaked)%nat /\
  Webcam.liveTracks (cleanup c) = (n + leaked)%nat /\
  (forallb awaited ops = true ->
   leaked = 0%nat /\
   Webcam.liveTracks c = (n + held_tracks c)%nat /\
   Webcam.liveTracks (stopPreview c) = n /\
   Webcam.liveTracks (cleanup c) = n) /\
  (forall (k1 k2 : nat) (d1 d2 : option string),
     forallb awaited ops = true ->
     let overlapping :=
       [OpStartPreviewCall; OpStartPreviewCall;
        OpStartPreviewResume (Some k1) d1;
        OpStartPreviewResume (Some k2) d2] in
     let c' := fold_left webcam_step overlapping c in
     held_tracks c' = k2 /\
     Webcam.liveTracks c' = (n + k1 + k2)%nat /\
     Webcam.liveTracks (cleanup c') = (n + k1)%nat).
Proof.
  cbv zeta.
  assert (H0 : Webcam.liveTracks (newWebcamRecorder n)
               = (n + held_tracks (newWebcamRecorder n))%nat)
    by (cbn; lia).
  pose proof (webcam_run_tracks ops n _ H0) as Hinv. cbv zeta in Hinv.
  set (c := fold_left webcam_step ops (newWebcamRecorder n)) in *.
  set (leaked := leakedTracks (newWebcamRecorder n) ops) in *.
  assert (Hstop : Webcam.liveTracks (stopPreview c) = (n + leaked)%nat).
  { unfold held_tracks in Hinv. cbn. destruct (Webcam.stream c); lia. }
  assert (Hclean : Webcam.liveTracks (cleanup c) = (n + leaked)%nat)
    by exact Hstop.
  split; [exact Hinv|]. split; [exact Hstop|]. split; [exact Hclean|]. split.
  - intros Hops. pose proof (leakedTracks_awaited ops (newWebcamRecorder n) Hops) as Hl.
    fold leaked in Hl. rewrite Hl in *. rewrite Nat.add_0_r in *.
    repeat split; assumption.
  - intros k1 k2 d1 d2 Hops.
    pose proof (leakedTracks_awaited ops (newWebcamRecorder n) Hops) as Hl.
    fold leaked in Hl. rewrite Hl, Nat.add_0_r in *.
    unfold held_tracks in Hinv. cbn.
    destruct (Webcam.stream c); repeat split; lia.
Qed.

Lemma webcam_tracks_are_released_witness :
  let ops := [OpRequestPermission (Some 1%nat);
              OpStartPreview (Some 2%nat) None;
              OpStartPreview (Some 1%nat) None;
              OpStartRecording] in
  Webcam.liveTracks
    (cleanup (fold_left webcam_step ops (newWebcamRecorder 3))) = 3%nat.
Proof.
  refine (proj2 (proj2 (proj2 (proj1 (proj2 (proj2 (proj2
            (webcam_tracks_are_released 3
               [OpRequestPermission (Some 1%nat);
                OpStartPreview (Some 2%nat) None;
                OpStartPreview (Some 1%nat) None;
                OpStartRecording])))) _)))).
  reflexivity.
Defined.

Lemma ondataavailable_chunks (sizes : list N) :
  forall c : Webcam.t,
    let c' := fold_left (fun c1 size => ondataavailable size c1) sizes c in
    Webcam.recordedChunks c'
    = Webcam.recordedChunks c ++ List.filter (fun size => (0 <? size)%N) sizes /\
    Webcam.mediaRecorder c' = Webcam.mediaRecorder c /\
    Webcam.stream c' = Webcam.stream c.
Proof.
  induction sizes as [|a sizes IH]; intros c; cbv zeta.
  - cbn. now rewrite app_nil_r.
  - cbn [fold_left List.filter].
    destruct (IH (ondataavailable a c)) as (-> & -> & ->).
    unfold ondataavailable. destruct (0 <? a)%N; cbn.
    + now rewrite <- app_assoc.
    + auto.
Qed.

(** X23: the blob [stopRecording] resolves with is made of the chunks
    delivered since [startRecording], in the order of delivery, the empty
    ones left out: chunks of an earlier recording are not in it.  The
    chunk list is empty afterwards, and a second [stopRecording] on the
    stopped recorder does not resolve with a blob. *)
Theorem recording_collects_chunks (c : Webcam.t) (k : nat)
  (sizes pending : list N)
  (Hstream : Webcam.stream c = Some k) :
  let c1 := fst (startRecording c) in
  let c2 := fold_left (fun c' size => ondataavailable size c') sizes c1 in
  let c3 := fst (stopRecording pending c2) in
  snd (startRecording c) = None /\
  snd (stopRecording pending c2)
    = inr (List.filter (fun size => (0 <? size)%N) (sizes ++ pending)) /\
  Webcam.recordedChunks c3 = [] /\
  forall pending', snd (stopRecording pending' c3) = inl RecorderInactive.
Proof.
  cbv zeta. unfold startRecording. rewrite Hstream. cbn [fst snd].
  split; [reflexivity|].
  set (c1 := {| Webcam.stream := Some k; Webcam.mediaRecorder := Some Recording;
                Webcam.recordedChunks := [];
                Webcam.previewElement := Webcam.previewElement c;
                Webcam.previewHasStream := Webcam.previewHasStream c;
                Webcam.currentDeviceId := Webcam.currentDeviceId c;
                Webcam.liveTracks := Webcam.liveTracks c |}).
  destruct (ondataavailable_chunks sizes c1) as (Hch & Hrec & _).
  cbv zeta in Hch, Hrec. cbn [Webcam.recordedChunks Webcam.mediaRecorder c1 app]
    in Hch, Hrec.
  set (c2 := fold_left (fun c' size => ondataavailable size c') sizes c1) in *.
  unfold stopRecording. rewrite Hrec.
  set (c2' := {| Webcam.stream := Webcam.stream c2;
                 Webcam.mediaRecorder := Some Inactive;
                 Webcam.recordedChunks := Webcam.recordedChunks c2;
                 Webcam.previewElement := Webcam.previewElement c2;
                 Webcam.previewHasStream := Webcam.previewHasStream c2;
                 Webcam.currentDeviceId := Webcam.currentDeviceId c2;
                 Webcam.liveTracks := Webcam.liveTracks c2 |}).
  destruct (ondataavailable_chunks pending c2') as (Hch' & Hrec' & _).
  cbv zeta in Hch', Hrec'.
  cbn [Webcam.recordedChunks Webcam.mediaRecorder c2'] in Hch', Hrec'.
  unfold onstop. cbn [fst snd setChunks Webcam.recordedChunks Webcam.mediaRecorder].
  rewrite Hch', Hch, Hrec', List.filter_app. cbn [app].
  repeat split.
Qed.

Lemma recording_collects_chunks_witness :
  let c := fst (startPreview (Some 1%nat) None (newWebcamRecorder 0)) in
  snd (stopRecording [5%N]
         (fold_left (fun c' size => ondataavailable size c') [3%N; 0%N; 4%N]
            (fst (startRecording (setChunks [9%N] c)))))
  = inr [3%N; 4%N; 5%N].
Proof.
  exact (proj1 (proj2 (recording_collects_chunks
           (setChunks [9%N]
              (fst (startPreview (Some 1%nat) None (newWebcamRecorder 0))))
           1 [3%N; 0%N; 4%N] [5%N] eq_refl))).
Defined.

(** * The scrubber *)

(** X24: for a time between 0 and the positive total the thumb stays on
    the line: at its left end for time 0, at its right end for the total
    time. *)
Theorem updateScrubber_on_the_line (rect_x rect_w time total : Q)
  (Hw : (0 <= rect_w)%Q) (Htotal : (0 < total)%Q)
  (Htime : (0 <= time <= total)%Q) :
  (rect_x <= updateScrubber rect_x rect_w time total <= rect_x + rect_w)%Q /\
  (updateScrubber rect_x rect_w 0 total == rect_x)%Q /\
  (updateScrubber rect_x rect_w total total == rect_x + rect_w)%Q.
Proof.
  unfold updateScrubber. destruct Htime as [Ht0 Ht1].
  assert (Hne : ~ (total == 0)%Q) by lra.
  assert (Hf0 : (0 <= time / total)%Q).
  { apply Qle_shift_div_l; [exact Htotal|]. lra. }
  assert (Hf1 : (time / total <= 1)%Q).
  { apply Qle_shift_div_r; [exact Htotal|]. lra. }
  set (fr := (time / total)%Q) in *.
  assert (Hp0 : (0 <= fr * rect_w)%Q) by (apply Qmult_le_0_compat; assumption).
  assert (Hp1 : (fr * rect_w <= 1 * rect_w)%Q)
    by (apply Qmult_le_compat_r; assumption).
  split; [split; lra|]. split; field; exact Hne.
Qed.

Lemma updateScrubber_on_the_line_witness :
  (0 <= updateScrubber 0 600 (5 # 2) 10 <= 0 + 600)%Q.
Proof.
  refine (proj1 (updateScrubber_on_the_line 0 600 (5 # 2) 10 _ _ _)).
  - discriminate.
  - reflexivity.
  - split; discriminate.
Defined.

(** * Loading a project *)

Lemma runListener_listeners parses pg l :
  Page.playingListeners (runListener parses pg l) = Page.playingListeners pg /\
  Page.videoFile (runListener parses pg l) = Page.videoFile pg.
Proof.
  unfold runListener. destruct (Listener.meta l) as [j|]; [|auto].
  destruct (parses j); auto.
Qed.

Lemma onPlaying_single parses pg l :
  Page.playingListeners pg = [l] ->
  onPlaying parses pg = runListener parses pg l.
Proof. intros H. unfold onPlaying. now rewrite H. Qed.

Lemma playing_events parses (l : Listener.t) (pg0 : Page.t)
  (Hl : Page.playingListeners pg0 = [l]) (k : nat) :
  let after := Nat.iter k (onPlaying parses) pg0 in
  Page.playingListeners after = [l] /\
  Page.videoFile after = Page.videoFile pg0 /\
  match Listener.meta l with
  | Some projectJson =>
      if parses projectJson then
        Page.loads after = Page.loads pg0 ++ repeat projectJson k /\
        Page.createdTriggers after = (Page.createdTriggers pg0 + k)%nat /\
        Page.callbackRuns after
        = (Page.callbackRuns pg0 + if Listener.hasCallback l then k else 0)%nat
      else Page.loads after = Page.loads pg0
  | None => Page.loads after = Page.loads pg0
  end.
Proof.
  cbv zeta. induction k as [|k (IHl & IHv & IH)].
  - cbn [Nat.iter]. split; [exact Hl|]. split; [reflexivity|].
    destruct (Listener.meta l) as [j|]; [|reflexivity].
    destruct (parses j); [|reflexivity].
    cbn. rewrite app_nil_r. repeat split; destruct (Listener.hasCallback l); lia.
  - rewrite Nat.iter_succ, (onPlaying_single _ _ l IHl).
    destruct (runListener_listeners parses
                (Nat.iter k (onPlaying parses) pg0) l) as [Hl' Hv'].
    split; [now rewrite Hl'|]. split; [now rewrite Hv'|].
    unfold runListener.
    destruct (Listener.meta l) as [j|]; [|exact IH].
    destruct (parses j); [|exact IH].
    destruct IH as (IHloads & IHcreated & IHruns).
    cbn [Page.loads Page.createdTriggers Page.callbackRuns].
    rewrite IHloads, IHcreated, IHruns. split; [|split].
    + rewrite <- app_assoc. f_equal. cbn [repeat]. now rewrite repeat_cons.
    + lia.
    + destruct (Listener.hasCallback l); lia.
Qed.

(** X25: a project archive without [video.mp4] changes nothing.  With
    [video.mp4] the video is replaced at once, and the project itself is
    loaded by the ['playing'] listener, which stays registered: on a page
    without other listeners, [k] such events load the text of [meta.json]
    [k] times, trigger ['created'] [k] times and run the callback [k]
    times; without [meta.json] they load nothing. *)
Theorem loadProject_loads_on_playing (parses : string -> bool)
  (files : string -> option string) (hasCallback : bool) (pg : Page.t)
  (k : nat)
  (Hquiet : Page.playingListeners pg = []) :
  match files "video.mp4"%string with
  | None => loadProject false files hasCallback pg = Some pg
  | Some videoBlob =>
      exists pg',
        loadProject false files hasCallback pg = Some pg' /\
        Page.videoFile pg' = Some videoBlob /\
        Page.loads pg' = Page.loads pg /\
        let after := Nat.iter k (onPlaying parses) pg' in
        Page.videoFile after = Some videoBlob /\
        match files "meta.json"%string with
        | Some projectJson =>
            if parses projectJson then
              Page.loads after = Page.loads pg ++ repeat projectJson k /\
              Page.createdTriggers after = (Page.createdTriggers pg + k)%nat /\
              Page.callbackRuns after
              = (Page.callbackRuns pg + if hasCallback then k else 0)%nat
            else Page.loads after = Page.loads pg
        | None => Page.loads after = Page.loads pg
        end
  end.
Proof.
  unfold loadProject. destruct (files "video.mp4"%string) as [v|]; [|reflexivity].
  eexists. split; [reflexivity|]. split; [reflexivity|]. split; [reflexivity|].
  cbv zeta. unfold loadVideo. rewrite Hquiet. cbn [app].
  set (l := {| Listener.meta := files "meta.json"%string;
               Listener.hasCallback := hasCallback |}).
  set (pg0 := {| Page.videoFile := Some v; Page.videoSrc := Some v;
                 Page.playingListeners := [l]; Page.loads := Page.loads pg;
                 Page.loaderHidden := Page.loaderHidden pg;
                 Page.saved := Page.saved pg;
                 Page.createdTriggers := Page.createdTriggers pg;
                 Page.callbackRuns := Page.callbackRuns pg |}).
  destruct (playing_events parses l pg0 eq_refl k) as (_ & Hv & H).
  cbv zeta in Hv, H. split; [exact Hv|exact H].
Qed.

Lemma loadProject_loads_on_playing_witness :
  let files := fun name : string =>
    if String.eqb name "video.mp4" then Some "video"%string
    else if String.eqb name "meta.json" then Some "{}"%string else None in
  let pg := {| Page.videoFile := None; Page.videoSrc := None;
               Page.playingListeners := []; Page.loads := [];
               Page.loaderHidden := false; Page.saved := false;
               Page.createdTriggers := 0; Page.callbackRuns := 0 |} in
  exists pg',
    loadProject false files true pg = Some pg' /\
    Page.loads (Nat.iter 2 (onPlaying (fun _ => true)) pg')
    = ["{}"; "{}"]%string.
Proof.
  cbv zeta.
  destruct (loadProject_loads_on_playing (fun _ => true)
              (fun name : string =>
                 if String.eqb name "video.mp4" then Some "video"%string
                 else if String.eqb name "meta.json" then Some "{}"%string
                      else None)
              true
              {| Page.videoFile := None; Page.videoSrc := None;
                 Page.playingListeners := []; Page.loads := [];
                 Page.loaderHidden := false; Page.saved := false;
                 Page.createdTriggers := 0; Page.callbackRuns := 0 |}
              2 eq_refl) as (pg' & Hload & _ & _ & _ & Hloads & _).
  exists pg'. split; [exact Hload|exact Hloads].
Defined.
